(** * loop.py: a time-lapse capture loop for the Raspberry Pi camera

    A shallow embedding of [src/loop.py] and the properties its
    specification states about it.

    The script is a straight line of calls to collaborators that live
    outside it (the camera driver, the clock, the file system, the console),
    followed by an unbounded loop under a [try]/[except]/[finally].  The
    embedding therefore is a small monad over
    - a [world] that records every external call in the order it was made
      together with the set of directories that exist, and
    - an [environment] that decides, per call, whether that call raises
      (an operator interrupt or any other exception) and what the clock
      reads.
    The loop is infinite in the source; here it takes a fuel (a number of
    iterations) and reports [Running] when the fuel is used up, so that a
    result with fuel [n] is the run observed after [n] iterations. *)

From Stdlib Require Import Ascii String DecimalString ZArith QArith Lia.
From stdpp Require Import gmap strings list fin_maps.

Local Open Scope string_scope.
Local Open Scope Z_scope.

(** ** Strings *)

Module Str.

Definition len (s : string) : nat := String.length s.

(** [str.lower] on the ASCII letters; every other byte is kept. *)
Definition lower_char (c : ascii) : ascii :=
  let n := nat_of_ascii c in
  if ((65 <=? n) && (n <=? 90))%nat then ascii_of_nat (n + 32) else c.

Fixpoint lower (s : string) : string :=
  match s with
  | EmptyString => EmptyString
  | String c s' => String (lower_char c) (lower s')
  end.

Definition is_digit (c : ascii) : bool :=
  let n := nat_of_ascii c in ((48 <=? n) && (n <=? 57))%nat.

Fixpoint last_char (s : string) : option ascii :=
  match s with
  | EmptyString => None
  | String c EmptyString => Some c
  | String _ s' => last_char s'
  end.

Definition startswith_sep (s : string) : bool :=
  match s with
  | String c _ => Ascii.eqb c "/"
  | EmptyString => false
  end.

Definition endswith_sep (s : string) : bool :=
  match last_char s with
  | Some c => Ascii.eqb c "/"
  | None => false
  end.

Fixpoint repeat_char (c : ascii) (n : nat) : string :=
  match n with
  | O => EmptyString
  | S n' => String c (repeat_char c n')
  end.

(** The decimal numeral of an integer, as [str(int)] prints it. *)
Definition decimal (z : Z) : string := NilZero.string_of_int (Z.to_int z).

(** [%0wd]: the decimal numeral, zero-filled on the left to width [w]. *)
Definition zero_pad (w : nat) (z : Z) : string :=
  let d := decimal z in
  repeat_char "0" (w - len d) ++ d.

Definition newline : string := String (ascii_of_nat 10) EmptyString.

End Str.

(** ** [os.path.join] (two arguments, POSIX) *)

Definition path_join (a b : string) : string :=
  if Str.startswith_sep b then b
  else if (String.eqb a "" || Str.endswith_sep a)%bool then a ++ b
  else a ++ "/" ++ b.

(** ** [datetime] *)

Definition is_leap (y : Z) : bool :=
  (y mod 4 =? 0) && (negb (y mod 100 =? 0) || (y mod 400 =? 0)).

Definition days_in_month (y m : Z) : Z :=
  if m =? 2 then (if is_leap y then 29 else 28)
  else if (m =? 4) || (m =? 6) || (m =? 9) || (m =? 11) then 30
  else 31.

(** The checks of the [datetime] constructor. *)
Definition valid_fields (y mo d h mi s us : Z) : bool :=
  (1 <=? y) && (y <=? 9999) && (1 <=? mo) && (mo <=? 12) &&
  (1 <=? d) && (d <=? days_in_month y mo) &&
  (0 <=? h) && (h <? 24) && (0 <=? mi) && (mi <? 60) &&
  (0 <=? s) && (s <? 60) && (0 <=? us) && (us <? 1000000).

(** A naive local date and time, as [datetime.now()] returns it.  The
    constructor's range checks are part of the type. *)
Record datetime : Type := Datetime {
  year : Z; month : Z; day : Z;
  hour : Z; minute : Z; second : Z; microsecond : Z;
  datetime_ok : valid_fields year month day hour minute second microsecond = true
}.

(** Two readings lie in the same clock second. *)
Definition same_second (a b : datetime) : Prop :=
  year a = year b /\ month a = month b /\ day a = day b /\
  hour a = hour b /\ minute a = minute b /\ second a = second b.

(** The proleptic Gregorian ordinal of a date ([date.toordinal]). *)
Definition days_before_year (y : Z) : Z :=
  let p := y - 1 in p * 365 + p / 4 - p / 100 + p / 400.

Fixpoint days_before_month_from (y : Z) (m : nat) : Z :=
  match m with
  | O => 0
  | S m' => days_before_month_from y m' + days_in_month y (Z.of_nat m)
  end.

Definition days_before_month (y m : Z) : Z :=
  days_before_month_from y (Z.to_nat (m - 1)).

Definition toordinal (dt : datetime) : Z :=
  days_before_year (year dt) + days_before_month (year dt) (month dt) + day dt.

(** Microseconds from the origin of the calendar: the difference of two of
    them is the [timedelta] that subtracting two datetimes gives. *)
Definition micros (dt : datetime) : Z :=
  (((toordinal dt * 24 + hour dt) * 60 + minute dt) * 60 + second dt) * 1000000
  + microsecond dt.

(** [later_by_more_than_a_second a b]: [b - a > timedelta(seconds=1)]. *)
Definition later_by_more_than_a_second (a b : datetime) : Prop :=
  micros b - micros a > 1000000.

(** [datetime.strftime] for the directives the script uses.  The month, the
    day and the time of day are zero-filled to two digits.  The year is not
    filled: the C library of the target prints [%Y] as the plain decimal
    numeral, so that a year before 1000 has fewer than four digits (the year
    999 gives [999], not [0999]). *)
Definition directive (c : ascii) (dt : datetime) : string :=
  if Ascii.eqb c "Y" then Str.decimal (year dt)
  else if Ascii.eqb c "m" then Str.zero_pad 2 (month dt)
  else if Ascii.eqb c "d" then Str.zero_pad 2 (day dt)
  else if Ascii.eqb c "H" then Str.zero_pad 2 (hour dt)
  else if Ascii.eqb c "M" then Str.zero_pad 2 (minute dt)
  else if Ascii.eqb c "S" then Str.zero_pad 2 (second dt)
  else String "%" (String c EmptyString).

Fixpoint strftime (fmt : string) (dt : datetime) : string :=
  match fmt with
  | EmptyString => EmptyString
  | String c rest =>
      match rest with
      | String d rest' =>
          if Ascii.eqb c "%" then directive d dt ++ strftime rest' dt
          else String c (strftime rest dt)
      | EmptyString => String c EmptyString
      end
  end.

(** A name matches a layout such as [YYYYMMDD_HHMMSS] when it has the
    layout's length, a decimal digit wherever the layout has one of the
    field letters Y, M, D, H, S, and the layout's own character elsewhere. *)
Definition is_field_letter (c : ascii) : bool :=
  Ascii.eqb c "Y" || Ascii.eqb c "M" || Ascii.eqb c "D" ||
  Ascii.eqb c "H" || Ascii.eqb c "S".

Fixpoint matches (layout s : string) : bool :=
  match layout, s with
  | EmptyString, EmptyString => true
  | String p layout', String c s' =>
      (if is_field_letter p then Str.is_digit c else Ascii.eqb p c)
      && matches layout' s'
  | _, _ => false
  end.

(** ** The driver's control values *)

(** [libcamera.controls.AwbModeEnum]: the members the script refers to. *)
Inductive AwbModeEnum : Type :=
  Auto | Incandescent | Fluorescent | Daylight | Cloudy.

(** What the script stores in its dictionaries: integers, booleans, the
    float literal of the gain (a rational here), white-balance modes and
    the (width, height) tuple of a resolution. *)
Inductive value : Type :=
| VInt (z : Z)
| VBool (b : bool)
| VFloat (q : Q)
| VAwbMode (m : AwbModeEnum)
| VSize (size : Z * Z).

(** A Python [dict] with string keys. *)
Abbreviation dict := (gmap string value).

(** What [create_still_configuration(main=...)] hands back: the object that
    [configure] receives.  Only the [main] stream request the script passed
    is visible to it. *)
Inductive still_configuration : Type :=
  StillConfiguration (main : dict).

(** ** Static configuration (lines 25-80) *)

Record auto_settings : Type := {
  auto_resolution : Z * Z
}.

Record manual_settings : Type := {
  resolution : Z * Z;
  brightness : Z;
  contrast : Z;
  saturation : Z;
  sharpness : Z;
  exposure_time : option Z;
  white_balance : string
}.

Record configuration : Type := {
  OUTPUT_BASE_PATH : string;
  INTERVAL_SECONDS : Z;
  FULLY_AUTO_MODE : bool;
  AUTO_SETTINGS : auto_settings;
  MANUAL_SETTINGS : manual_settings
}.

(** The values the script ships with. *)
Definition shipped : configuration := {|
  OUTPUT_BASE_PATH := "/media/nagli/aed29726-d3de-4f78-8450-0f34bb1faab11";
  INTERVAL_SECONDS := 10;
  FULLY_AUTO_MODE := true;
  AUTO_SETTINGS := {| auto_resolution := (1920, 1080) |};
  MANUAL_SETTINGS := {|
    resolution := (640, 480);
    brightness := 50;
    contrast := 0;
    saturation := 0;
    sharpness := 0;
    exposure_time := Some 1000;
    white_balance := "auto"
  |}
|}.

Definition AWB_MODE_MAP : gmap string AwbModeEnum :=
  <["auto" := Auto]> (
  <["incandescent" := Incandescent]> (
  <["fluorescent" := Fluorescent]> (
  <["daylight" := Daylight]> (
  <["cloudy" := Cloudy]> ∅)))).

(** ** Calls, worlds and environments *)

Inductive exn : Type :=
| KeyboardInterrupt
| Exception (name : string).

(** One constructor per call that leaves the script. *)
Inductive event : Type :=
| Open
| CreateStillConfiguration (main : dict)
| Configure (config : still_configuration)
| SetControls (controls : dict)
| Start
| CaptureFile (file_path : string)
| Stop
| Now (reading : datetime)
| Makedirs (name : string) (exist_ok : bool)
| Print (line : string)
| Sleep (secs : Z).

(** [log] has the latest call first; [dirs] is the set of directories that
    exist. *)
Record world : Type := World {
  log : list event;
  dirs : gset string
}.

(** The calls made so far, oldest first. *)
Definition history (w : world) : list event := rev (log w).

(** The world a run starts in: nothing called yet, any set of directories. *)
Definition boot (fs : gset string) : world := World [] fs.

(** [fault i] is what the [i]-th call of the run (counting from 0) raises, if
    anything; [clock i] is what the clock reads if the [i]-th call is
    [datetime.now()]. *)
Record environment : Type := Environment {
  fault : nat -> option exn;
  clock : nat -> datetime
}.

Inductive outcome (A : Type) : Type :=
| Ok (a : A)
| Raise (e : exn)
| Running.
Arguments Ok {A} a.
Arguments Raise {A} e.
Arguments Running {A}.

Definition M (A : Type) : Type := environment -> world -> outcome A * world.

Definition ret {A} (a : A) : M A := fun _ w => (Ok a, w).

Definition bind {A B} (m : M A) (k : A -> M B) : M B :=
  fun env w =>
    match m env w with
    | (Ok a, w') => k a env w'
    | (Raise e, w') => (Raise e, w')
    | (Running, w') => (Running, w')
    end.

Definition raise {A} (e : exn) : M A := fun _ w => (Raise e, w).

(** The loop has not ended within the fuel. *)
Definition still_running {A} : M A := fun _ w => (Running, w).

Declare Scope prog_scope.
Delimit Scope prog_scope with prog.
Notation "x <- m ;; k" := (bind m (fun x => k))
  (at level 100, m at next level, right associativity) : prog_scope.
Notation "m ;; k" := (bind m (fun _ => k))
  (at level 100, right associativity) : prog_scope.
Local Open Scope prog_scope.

(** An external call: it is recorded, and the environment decides whether it
    raises. *)
Definition call (e : event) : M unit :=
  fun env w =>
    let w' := World (e :: log w) (dirs w) in
    match fault env (length (log w)) with
    | Some x => (Raise x, w')
    | None => (Ok tt, w')
    end.

(** [try: body except KeyboardInterrupt: handler]. *)
Definition try_except_KeyboardInterrupt (body handler : M unit) : M unit :=
  fun env w =>
    match body env w with
    | (Raise KeyboardInterrupt, w') => handler env w'
    | other => other
    end.

(** [try: body finally: cleanup].  The cleanup runs when the body returns
    and when it raises; the body's exception is re-raised after a cleanup
    that returns, and replaced by the cleanup's own if that raises. *)
Definition try_finally (body cleanup : M unit) : M unit :=
  fun env w =>
    match body env w with
    | (Ok _, w') => cleanup env w'
    | (Raise e, w') =>
        match cleanup env w' with
        | (Ok _, w'') => (Raise e, w'')
        | other => other
        end
    | (Running, w') => (Running, w')
    end.

(** *** The collaborators *)

Definition Picamera2 : M unit := call Open.

Definition create_still_configuration (main : dict) : M still_configuration :=
  call (CreateStillConfiguration main) ;; ret (StillConfiguration main).

Definition configure (config : still_configuration) : M unit :=
  call (Configure config).

Definition set_controls (controls : dict) : M unit :=
  call (SetControls controls).

Definition start : M unit := call Start.

Definition capture_file (file_path : string) : M unit :=
  call (CaptureFile file_path).

Definition stop : M unit := call Stop.

Definition print (line : string) : M unit := call (Print line).

(** [datetime.now()]. *)
Definition datetime_now : M datetime :=
  fun env w =>
    let reading := clock env (length (log w)) in
    (call (Now reading) ;; ret reading) env w.

(** [time.sleep]: a negative length is a [ValueError]. *)
Definition sleep (secs : Z) : M unit :=
  if secs <? 0 then raise (Exception "ValueError") else call (Sleep secs).

(** The directories [os.makedirs] creates on the way to [name]: every
    prefix of [name] that ends before a separator and is followed by a
    further component. *)
Fixpoint has_component (s : string) : bool :=
  match s with
  | EmptyString => false
  | String c s' => negb (Ascii.eqb c "/") || has_component s'
  end.

Fixpoint ancestors_from (done rest : string) : list string :=
  match rest with
  | EmptyString => []
  | String c rest' =>
      (if Ascii.eqb c "/" && negb (String.eqb done "")
          && negb (Str.endswith_sep done) && has_component rest'
       then [done] else [])
      ++ ancestors_from (done ++ String c EmptyString) rest'
  end.

Definition ancestors (name : string) : list string :=
  ancestors_from EmptyString name.

(** [os.makedirs(name, exist_ok=...)].  A directory that exists is an error
    only without [exist_ok]; other failures (permissions, a full disk) are
    the environment's. *)
Definition makedirs (name : string) (exist_ok : bool) : M unit :=
  fun env w =>
    match call (Makedirs name exist_ok) env w with
    | (Ok _, w') =>
        if decide (name ∈ dirs w) then
          if exist_ok then (Ok tt, w')
          else (Raise (Exception "FileExistsError"), w')
        else
          (Ok tt, World (log w') (dirs w ∪ {[name]} ∪ list_to_set (ancestors name)))
    | other => other
    end.

(** ** The script *)

(** [str()] of the values the script prints. *)
Definition str_size (size : Z * Z) : string :=
  "(" ++ Str.decimal (fst size) ++ ", " ++ Str.decimal (snd size) ++ ")".

Definition str_optional (o : option Z) : string :=
  match o with
  | Some z => Str.decimal z
  | None => "None"
  end.

(** Lines 9-19. *)
Definition create_output_directory (base_path : string) : M string :=
  now <- datetime_now ;;
  let timestamp := strftime "%Y%m%d_%H%M%S" now in
  let directory := path_join base_path timestamp in
  makedirs directory true ;;
  ret directory.

(** Lines 92-100: the automatic branch. *)
Definition configure_auto (cfg : configuration) : M unit :=
  auto_config <- create_still_configuration
                   {[ "size" := VSize (auto_resolution (AUTO_SETTINGS cfg)) ]} ;;
  configure auto_config ;;
  print "[INFO] Camera configured for FULLY AUTO mode." ;;
  print ("       - Resolution: " ++ str_size (auto_resolution (AUTO_SETTINGS cfg))) ;;
  print "       - Exposure, White Balance, etc. are automatic.".

(** Lines 119-133: exposure.  The dictionary built so far goes in, the
    updated one comes out. *)
Definition handle_exposure (s : manual_settings) (controls : dict) : M dict :=
  match exposure_time s with
  | Some t =>
      let controls := <["AeEnable" := VBool false]> controls in
      let controls := <["ExposureTime" := VInt t]> controls in
      let controls := <["AnalogueGain" := VFloat 1]> controls in
      print ("[INFO] Using manual exposure: " ++ Str.decimal t ++ " µs") ;;
      print "[INFO] Locked AnalogueGain at 1.0 for minimal sensor amplification." ;;
      ret controls
  | None =>
      let controls := <["AeEnable" := VBool true]> controls in
      print "[INFO] Auto exposure enabled." ;;
      ret controls
  end.

(** Lines 138-152: white balance. *)
Definition handle_white_balance (s : manual_settings) (controls : dict) : M dict :=
  let wb_mode_str := Str.lower (white_balance s) in
  match AWB_MODE_MAP !! wb_mode_str with
  | Some mode =>
      if String.eqb wb_mode_str "auto" then
        let controls := <["AwbEnable" := VBool true]> controls in
        print "[INFO] Auto white balance enabled." ;;
        ret controls
      else
        let controls := <["AwbEnable" := VBool false]> controls in
        let controls := <["AwbMode" := VAwbMode mode]> controls in
        print ("[INFO] White balance mode set to '" ++ wb_mode_str ++ "'.") ;;
        ret controls
  | None =>
      let controls := <["AwbEnable" := VBool true]> controls in
      print ("[WARN] Unrecognized white_balance '" ++ wb_mode_str
             ++ "', defaulting to auto WB.") ;;
      ret controls
  end.

(** Lines 158-167: the summary of the manual settings. *)
Definition log_settings (s : manual_settings) : M unit :=
  print "[INFO] Camera configured for MANUAL mode with these settings:" ;;
  print ("       - Resolution:      " ++ str_size (resolution s)) ;;
  print ("       - Brightness:      " ++ Str.decimal (brightness s)) ;;
  print ("       - Contrast:        " ++ Str.decimal (contrast s)) ;;
  print ("       - Saturation:      " ++ Str.decimal (saturation s)) ;;
  print ("       - Sharpness:       " ++ Str.decimal (sharpness s)) ;;
  print ("       - ExposureTime:    " ++ str_optional (exposure_time s)) ;;
  print ("       - White Balance:   " ++ white_balance s) ;;
  match exposure_time s with
  | Some _ => print "       - AnalogueGain:    1.0 (locked)"
  | None => ret tt
  end.

(** Lines 101-167: the manual branch. *)
Definition configure_manual (cfg : configuration) : M unit :=
  let s := MANUAL_SETTINGS cfg in
  manual_config <- create_still_configuration {[ "size" := VSize (resolution s) ]} ;;
  configure manual_config ;;
  let controls : dict :=
    <["Brightness" := VInt (brightness s)]> (
    <["Contrast" := VInt (contrast s)]> (
    <["Saturation" := VInt (saturation s)]> (
    <["Sharpness" := VInt (sharpness s)]> ∅))) in
  controls <- handle_exposure s controls ;;
  controls <- handle_white_balance s controls ;;
  set_controls controls ;;
  log_settings s.

(** Lines 87-176: everything before the [try]. *)
Definition setup (cfg : configuration) : M string :=
  Picamera2 ;;
  (if FULLY_AUTO_MODE cfg then configure_auto cfg else configure_manual cfg) ;;
  start ;;
  print "[INFO] Camera started." ;;
  output_directory <- create_output_directory (OUTPUT_BASE_PATH cfg) ;;
  print ("[INFO] Images will be saved in: " ++ output_directory) ;;
  ret output_directory.

(** Lines 183-193: [while True], for [fuel] iterations. *)
Fixpoint capture_loop (fuel : nat) (cfg : configuration)
    (output_directory : string) : M unit :=
  match fuel with
  | O => still_running
  | S fuel' =>
      now <- datetime_now ;;
      let timestamp_str := strftime "image_%Y%m%d_%H%M%S.jpg" now in
      let file_path := path_join output_directory timestamp_str in
      print ("[CAPTURE] Saving image: " ++ file_path) ;;
      capture_file file_path ;;
      sleep (INTERVAL_SECONDS cfg) ;;
      capture_loop fuel' cfg output_directory
  end.

Definition STARTING : string :=
  "[INFO] Starting image capture. Press Ctrl+C to stop." ++ Str.newline.
Definition STOPPING : string :=
  Str.newline ++ "[INFO] Stopping image capture...".
Definition STOPPED : string := "[INFO] Camera stopped. Exiting.".

(** Lines 181-202: the guarded block. *)
Definition capture_session (fuel : nat) (cfg : configuration)
    (output_directory : string) : M unit :=
  try_finally
    (try_except_KeyboardInterrupt
       (print STARTING ;; capture_loop fuel cfg output_directory)
       (print STOPPING))
    (stop ;; print STOPPED).

(** Lines 82-202. *)
Definition main (cfg : configuration) (fuel : nat) : M unit :=
  output_directory <- setup cfg ;;
  capture_session fuel cfg output_directory.

(** A run of the script: the outcome of [main] and the world it leaves,
    from a world in which nothing has been called. *)
Definition run (cfg : configuration) (fuel : nat) (env : environment)
    (fs : gset string) : outcome unit * world :=
  main cfg fuel env (boot fs).

(** The process has ended: [main] returned or an exception left it. *)
Definition exited {A} (r : outcome A) : bool :=
  match r with
  | Running => false
  | _ => true
  end.

(** ** What the claims speak of *)

(** The name [create_output_directory] gives the session directory and the
    name the loop gives an image, from a clock reading. *)
Definition DIRECTORY_LAYOUT : string := "YYYYMMDD_HHMMSS".
Definition IMAGE_LAYOUT : string := "image_YYYYMMDD_HHMMSS.jpg".

Definition directory_name (dt : datetime) : string :=
  strftime "%Y%m%d_%H%M%S" dt.
Definition image_name (dt : datetime) : string :=
  strftime "image_%Y%m%d_%H%M%S.jpg" dt.


(** Recognisers of calls. *)
Definition is_open (e : event) : bool :=
  match e with Open => true | _ => false end.
Definition is_configure (e : event) : bool :=
  match e with Configure _ => true | _ => false end.
Definition is_start (e : event) : bool :=
  match e with Start => true | _ => false end.
Definition is_stop (e : event) : bool :=
  match e with Stop => true | _ => false end.

(** How many calls of a kind a history holds. *)
Definition count (p : event -> bool) (h : list event) : nat :=
  length (List.filter p h).

(** The paths handed to [capture_file], the clock readings, and the control
    sets handed to [set_controls], each in order. *)
Fixpoint captures (h : list event) : list string :=
  match h with
  | [] => []
  | CaptureFile p :: h' => p :: captures h'
  | _ :: h' => captures h'
  end.

Fixpoint readings (h : list event) : list datetime :=
  match h with
  | [] => []
  | Now dt :: h' => dt :: readings h'
  | _ :: h' => readings h'
  end.

Fixpoint controls_applied (h : list event) : list dict :=
  match h with
  | [] => []
  | SetControls c :: h' => c :: controls_applied h'
  | _ :: h' => controls_applied h'
  end.

(** The readings of a session: those taken after the session directory was
    made, which are the ones the loop names its images by. *)
Fixpoint after_makedirs (h : list event) : list event :=
  match h with
  | [] => []
  | Makedirs _ _ :: h' => h'
  | _ :: h' => after_makedirs h'
  end.

Definition session_stamps (h : list event) : list datetime :=
  readings (after_makedirs h).

(** Every reading is more than a second after the one before it. *)
Fixpoint spaced (l : list datetime) : Prop :=
  match l with
  | a :: l' =>
      match l' with
      | b :: _ => later_by_more_than_a_second a b /\ spaced l'
      | [] => True
      end
  | [] => True
  end.

(** No call of the [i]-th to the [j]-th (exclusive) raises. *)
Definition calm (env : environment) (i j : nat) : Prop :=
  forall n, (i <= n < j)%nat -> fault env n = None.

(** *** The life cycle of the device handle *)

Inductive device_state : Type :=
  Idle | Opened | Configured | Started | Stopped.

(** What each call does to the handle, and [None] where the life cycle
    forbids it: open from [Idle] only, configure from [Opened] only, set
    controls while [Configured], start from [Configured] only, capture while
    [Started], stop from [Started] only.  The calls to the clock, the file
    system and the console do not touch the handle. *)
Definition device_step (s : device_state) (e : event) : option device_state :=
  match e, s with
  | Open, Idle => Some Opened
  | Open, _ => None
  | CreateStillConfiguration _, Opened => Some Opened
  | CreateStillConfiguration _, _ => None
  | Configure _, Opened => Some Configured
  | Configure _, _ => None
  | SetControls _, Configured => Some Configured
  | SetControls _, _ => None
  | Start, Configured => Some Started
  | Start, _ => None
  | CaptureFile _, Started => Some Started
  | CaptureFile _, _ => None
  | Stop, Started => Some Stopped
  | Stop, _ => None
  | _, _ => Some s
  end.

Fixpoint device_run (s : device_state) (h : list event) : option device_state :=
  match h with
  | [] => Some s
  | e :: h' =>
      match device_step s e with
      | Some s' => device_run s' h'
      | None => None
      end
  end.

(** *** The control set, in the specification's words

    Brightness, contrast, saturation and sharpness as given; with an
    exposure time, auto-exposure off, the time verbatim and the gain at 1.0,
    else auto-exposure on; white balance by the lower-cased mode string:
    "auto" or an unknown string enable auto white balance, any other member
    disables it and selects that mode. *)
Definition awb_of_string (s : string) : option AwbModeEnum :=
  if String.eqb s "auto" then Some Auto
  else if String.eqb s "incandescent" then Some Incandescent
  else if String.eqb s "fluorescent" then Some Fluorescent
  else if String.eqb s "daylight" then Some Daylight
  else if String.eqb s "cloudy" then Some Cloudy
  else None.

Definition quality_controls (s : manual_settings) : dict :=
  <["Brightness" := VInt (brightness s)]> (
  <["Contrast" := VInt (contrast s)]> (
  <["Saturation" := VInt (saturation s)]> (
  <["Sharpness" := VInt (sharpness s)]> ∅))).

Definition exposure_controls (s : manual_settings) (c : dict) : dict :=
  match exposure_time s with
  | Some t =>
      <["AnalogueGain" := VFloat 1]> (
      <["ExposureTime" := VInt t]> (
      <["AeEnable" := VBool false]> c))
  | None => <["AeEnable" := VBool true]> c
  end.

Definition white_balance_controls (s : manual_settings) (c : dict) : dict :=
  match awb_of_string (Str.lower (white_balance s)) with
  | Some Auto | None => <["AwbEnable" := VBool true]> c
  | Some mode => <["AwbMode" := VAwbMode mode]> (<["AwbEnable" := VBool false]> c)
  end.

Definition resolved_controls (s : manual_settings) : dict :=
  white_balance_controls s (exposure_controls s (quality_controls s)).

(** The line printed for the white-balance decision. *)
Definition white_balance_line (s : manual_settings) : string :=
  let wb := Str.lower (white_balance s) in
  match awb_of_string wb with
  | Some Auto => "[INFO] Auto white balance enabled."
  | Some _ => "[INFO] White balance mode set to '" ++ wb ++ "'."
  | None => "[WARN] Unrecognized white_balance '" ++ wb ++ "', defaulting to auto WB."
  end.

(** *** The calls of a run without faults, block by block *)

Definition auto_script (cfg : configuration) : list event :=
  let main : dict := {[ "size" := VSize (auto_resolution (AUTO_SETTINGS cfg)) ]} in
  [ CreateStillConfiguration main;
    Configure (StillConfiguration main);
    Print "[INFO] Camera configured for FULLY AUTO mode.";
    Print ("       - Resolution: " ++ str_size (auto_resolution (AUTO_SETTINGS cfg)));
    Print "       - Exposure, White Balance, etc. are automatic." ].

Definition exposure_lines (s : manual_settings) : list event :=
  match exposure_time s with
  | Some t =>
      [ Print ("[INFO] Using manual exposure: " ++ Str.decimal t ++ " µs");
        Print "[INFO] Locked AnalogueGain at 1.0 for minimal sensor amplification." ]
  | None => [ Print "[INFO] Auto exposure enabled." ]
  end.

Definition summary_lines (s : manual_settings) : list event :=
  [ Print "[INFO] Camera configured for MANUAL mode with these settings:";
    Print ("       - Resolution:      " ++ str_size (resolution s));
    Print ("       - Brightness:      " ++ Str.decimal (brightness s));
    Print ("       - Contrast:        " ++ Str.decimal (contrast s));
    Print ("       - Saturation:      " ++ Str.decimal (saturation s));
    Print ("       - Sharpness:       " ++ Str.decimal (sharpness s));
    Print ("       - ExposureTime:    " ++ str_optional (exposure_time s));
    Print ("       - White Balance:   " ++ white_balance s) ]
  ++ match exposure_time s with
     | Some _ => [ Print "       - AnalogueGain:    1.0 (locked)" ]
     | None => []
     end.

(** The manual branch up to, and after, its one [set_controls]. *)
Definition manual_prelude (s : manual_settings) : list event :=
  let main : dict := {[ "size" := VSize (resolution s) ]} in
  [ CreateStillConfiguration main; Configure (StillConfiguration main) ]
  ++ exposure_lines s ++ [ Print (white_balance_line s) ].

Definition manual_script (cfg : configuration) : list event :=
  let s := MANUAL_SETTINGS cfg in
  manual_prelude s ++ SetControls (resolved_controls s) :: summary_lines s.

Definition configure_script (cfg : configuration) : list event :=
  if FULLY_AUTO_MODE cfg then auto_script cfg else manual_script cfg.

Definition session_directory (cfg : configuration) (dt : datetime) : string :=
  path_join (OUTPUT_BASE_PATH cfg) (directory_name dt).

Definition launch_script (cfg : configuration) (dt : datetime) : list event :=
  [ Start;
    Print "[INFO] Camera started.";
    Now dt;
    Makedirs (session_directory cfg dt) true;
    Print ("[INFO] Images will be saved in: " ++ session_directory cfg dt) ].

Definition setup_script (cfg : configuration) (dt : datetime) : list event :=
  Open :: configure_script cfg ++ launch_script cfg dt.

(** The position of the [datetime.now()] of [create_output_directory]. *)
Definition now_index (cfg : configuration) : nat :=
  3 + length (configure_script cfg).

(** The calls of one turn of the loop, whole or cut short. *)
Definition loop_event (e : event) : bool :=
  match e with
  | Now _ | Print _ | CaptureFile _ | Sleep _ => true
  | _ => false
  end.

(** The ways the guarded block ends once the loop is left. *)
Definition finales : list (list event) :=
  [ [Print STOPPING; Stop; Print STOPPED];
    [Print STOPPING; Stop];
    [Stop; Print STOPPED];
    [Stop] ].

(** ** Definitions the proofs use *)

Local Open Scope list_scope.

(** Reading a numeral back. *)
Fixpoint parse_from (acc : Z) (s : string) : Z :=
  match s with
  | EmptyString => acc
  | String c s' => parse_from (acc * 10 + (Z.of_nat (nat_of_ascii c) - 48)) s'
  end.

Definition field_letters : list ascii :=
  ["Y"; "M"; "D"; "H"; "S"]%char.

Definition pad_ok (w : nat) (n : nat) : bool :=
  let s := Str.zero_pad w (Z.of_nat n) in
  forallb (fun c => matches (Str.repeat_char c w) s) field_letters
  && (parse_from 0 s =? Z.of_nat n).

(** The same check at an integer, and a check of [n] integers in a row. *)
Definition pad_ok_at (w : nat) (z : Z) : bool :=
  let s := Str.zero_pad w z in
  forallb (fun c => matches (Str.repeat_char c w) s) field_letters
  && (parse_from 0 s =? z).

Fixpoint all_from (f : Z -> bool) (z : Z) (n : nat) : bool :=
  match n with
  | O => true
  | S n' => f z && all_from f (z + 1) n'
  end.


(** [os.path.join] with a name that is not absolute. *)
Definition separator (a : string) : string :=
  if (String.eqb a "" || Str.endswith_sep a)%bool then "" else "/".

(** The path of the image named by a reading. *)
Definition image_path (d : string) (dt : datetime) : string :=
  path_join d (image_name dt).

(** The calls of the loop: only clock, console, capture and sleep calls, and
    the captured paths are those named by the readings, in order (the last
    reading may not have got to its capture). *)
Definition loop_body (d : string) (body : list event) : Prop :=
  Forall (fun e => loop_event e = true) body /\
  captures body `prefix_of` map (image_path d) (readings body).

Definition turn (cfg : configuration) (d : string) (dt : datetime) : list event :=
  [ Now dt;
    Print ("[CAPTURE] Saving image: " +:+ image_path d dt);
    CaptureFile (image_path d dt);
    Sleep (INTERVAL_SECONDS cfg) ].

(** [follows env n m es a]: started when [n] calls have been made, the block
    [m] makes the calls [es] in order and returns [a], unless the
    environment makes one of them raise, which ends the block there. *)
Definition follows {A} (env : environment) (n : nat) (m : M A)
    (es : list event) (a : A) : Prop :=
  forall w, length (log w) = n ->
    exists r w' es',
      m env w = (r, w') /\ log w' = rev es' ++ log w /\
      match r with
      | Ok a' => a' = a /\ es' = es
      | Raise x =>
          es' `prefix_of` es /\
          exists pre e, es' = pre ++ [e] /\ fault env (n + length pre) = Some x
      | Running => False
      end.

(** How far a handle has got. *)
Definition rank (s : device_state) : nat :=
  match s with
  | Idle => 0 | Opened => 1 | Configured => 2 | Started => 3 | Stopped => 4
  end.

(** 1 if the handle passed into state [t] on its way from [a] to [b]. *)
Definition passed (a b t : device_state) : nat :=
  if ((rank a <? rank t) && (rank t <=? rank b))%nat then 1 else 0.

(** The reading that names the session directory. *)
Definition session_start (cfg : configuration) (env : environment) : datetime :=
  clock env (now_index cfg).

(** ** The control set, as the claims speak of it *)

(** The supported white-balance strings, and the mode of each one that
    fixes a mode. *)
Definition WHITE_BALANCE_NAMES : list string :=
  ["auto"; "incandescent"; "fluorescent"; "daylight"; "cloudy"]%string.

Definition FIXED_MODES : list (string * AwbModeEnum) :=
  [ ("incandescent", Incandescent); ("fluorescent", Fluorescent);
    ("daylight", Daylight); ("cloudy", Cloudy) ]%string.

Definition UNRECOGNIZED (wb : string) : string :=
  ("[WARN] Unrecognized white_balance '" +:+ wb +:+ "', defaulting to auto WB.")%string.

(** The shape every resolved control set has. *)
Definition structural_invariant (c : dict) : Prop :=
  is_Some (c !! "Brightness") /\ is_Some (c !! "Contrast") /\
  is_Some (c !! "Saturation") /\ is_Some (c !! "Sharpness") /\
  is_Some (c !! "AeEnable") /\
  (is_Some (c !! "ExposureTime") <-> c !! "AeEnable" = Some (VBool false)) /\
  (is_Some (c !! "AnalogueGain") <-> c !! "AeEnable" = Some (VBool false)) /\
  is_Some (c !! "AwbEnable") /\
  (is_Some (c !! "AwbMode") <-> c !! "AwbEnable" = Some (VBool false)).

(** The specification's second end-to-end scenario: manual mode, no
    exposure time, an unknown white-balance string. *)
Definition bogus_manual : configuration := {|
  OUTPUT_BASE_PATH := "/tmp/x";
  INTERVAL_SECONDS := 10;
  FULLY_AUTO_MODE := false;
  AUTO_SETTINGS := AUTO_SETTINGS shipped;
  MANUAL_SETTINGS := {|
    resolution := (640, 480);
    brightness := 50;
    contrast := 0;
    saturation := 0;
    sharpness := 0;
    exposure_time := None;
    white_balance := "Bogus"
  |}
|}.

(** ** Example environments *)

Definition t_101500 : datetime := Datetime 2025 1 3 10 15 0 0 eq_refl.
Definition t_101500_later : datetime := Datetime 2025 1 3 10 15 0 400000 eq_refl.
Definition t_101510 : datetime := Datetime 2025 1 3 10 15 10 420000 eq_refl.
Definition t_101520 : datetime := Datetime 2025 1 3 10 15 20 440000 eq_refl.

(** A clock that reads 10:15:00 during start-up and at the first turn of
    the loop of the shipped configuration, and ten seconds more at each of
    the next two turns. *)
Definition clock_10s (i : nat) : datetime :=
  if (i <? 12)%nat then t_101500
  else if (i <? 16)%nat then t_101500_later
  else if (i <? 20)%nat then t_101510
  else t_101520.

(** Nothing raises. *)
Definition quiet : environment := Environment (fun _ => None) clock_10s.

(** The [k]-th call raises [x], no other call raises. *)
Definition raising (k : nat) (x : exn) : environment :=
  Environment (fun i => if (i =? k)%nat then Some x else None) clock_10s.


(** ** The claims as the specification words them, where the script differs *)

(** C1 as worded: whenever the process ends after the device was started,
    the device was stopped. *)
Definition stop_on_every_exit_from_started (cfg : configuration) : Prop :=
  forall fuel env fs r w,
    run cfg fuel env fs = (r, w) ->
    exited r = true ->
    In Start (history w) -> In Stop (history w).

(** C9 as worded: every run that ends has opened, configured, started and
    stopped the device exactly once each, in that order. *)
Definition lifecycle_exactly_once (cfg : configuration) : Prop :=
  forall fuel env fs r w,
    run cfg fuel env fs = (r, w) ->
    exited r = true ->
    count is_open (history w) = 1%nat /\
    count is_configure (history w) = 1%nat /\
    count is_start (history w) = 1%nat /\
    count is_stop (history w) = 1%nat /\
    device_run Idle (history w) = Some Stopped.


(** The readings of a history, each with the number of its call. *)
Fixpoint readings_from (n : nat) (h : list event) : list (nat * datetime) :=
  match h with
  | [] => []
  | Now dt :: h' => (n, dt) :: readings_from (S n) h'
  | _ :: h' => readings_from (S n) h'
  end.

(** C6 as worded.  The duration of a turn is time that passes, counted here
    on a steady clock: [instant i] is the instant, in microseconds, of the
    [i]-th call.  [datetime.now()] reads naive local time: the reading at a
    call is its instant plus the offset of local time in force then.  A turn
    of the loop is four calls (clock, console, capture, sleep), so that every
    turn lasts more than a second when any four calls in a row do. *)
Definition names_unique_when_turns_exceed_a_second (cfg : configuration) : Prop :=
  forall fuel env fs r w (instant offset : nat -> Z),
    run cfg fuel env fs = (r, w) ->
    (forall i dt, In (i, dt) (readings_from 0 (history w)) ->
       micros dt = instant i + offset i) ->
    (forall i : nat, instant i <= instant (S i)) ->
    (forall i : nat, instant (i + 4)%nat - instant i > 1000000) ->
    NoDup (captures (history w)).

(** The night in which daylight saving time ends: local time is two hours
    ahead of the steady clock until 03:00 and one hour from then on, so that
    02:15 is read twice, an hour apart.  The calls are seven and a half
    minutes apart, a turn of the loop lasts half an hour, and the loop of the
    shipped configuration reads the clock at its calls 12, 16 and 20. *)
Definition t_014500 : datetime := Datetime 2025 10 26 1 45 0 0 eq_refl.
Definition t_021500 : datetime := Datetime 2025 10 26 2 15 0 0 eq_refl.
Definition t_024500 : datetime := Datetime 2025 10 26 2 45 0 0 eq_refl.

Definition steady_instant (i : nat) : Z :=
  micros t_021500 - 7200000000 + (Z.of_nat i - 12) * 450000000.

Definition offset_in_force (i : nat) : Z :=
  if (i <? 20)%nat then 7200000000 else 3600000000.

Definition clock_set_back (i : nat) : datetime :=
  if (i <? 12)%nat then t_014500
  else if (i <? 16)%nat then t_021500
  else if (i <? 20)%nat then t_024500
  else t_021500.

Definition set_back : environment := Environment (fun _ => None) clock_set_back.


(** ** Further environments and configurations *)

(** The [k]-th call raises [x] and the [k']-th raises [y]; no other call
    raises. *)
Definition raising_twice (k : nat) (x : exn) (k' : nat) (y : exn) : environment :=
  Environment
    (fun i => if (i =? k)%nat then Some x
              else if (i =? k')%nat then Some y else None)
    clock_10s.

(** ** Pacing *)

Definition is_sleep (e : event) : bool :=
  match e with Sleep _ => true | _ => false end.

(** The calls of [k] whole turns of the loop, the first of which begins when
    [n] calls have been made. *)
Fixpoint turns (cfg : configuration) (d : string) (env : environment)
    (k n : nat) : list event :=
  match k with
  | O => []
  | S k' => turn cfg d (clock env n) ++ turns cfg d env k' (4 + n)
  end.

(** Whether a capture is owed its sleep. *)
Inductive pace : Type := Ready | Captured.

(** A capture is made only when none is owed a sleep; a sleep is made only
    after a capture, with the given interval, which is not negative.  The
    other calls leave the pace as it is. *)
Definition pace_step (interval : Z) (s : pace) (e : event) : option pace :=
  match e, s with
  | CaptureFile _, Ready => Some Captured
  | CaptureFile _, Captured => None
  | Sleep secs, Captured =>
      if (secs =? interval) && (0 <=? secs) then Some Ready else None
  | Sleep _, Ready => None
  | _, _ => Some s
  end.

Fixpoint pace_run (interval : Z) (s : pace) (h : list event) : option pace :=
  match h with
  | [] => Some s
  | e :: h' =>
      match pace_step interval s e with
      | Some s' => pace_run interval s' h'
      | None => None
      end
  end.

Definition pace_of (cfg : configuration) (w : world) : option pace :=
  pace_run (INTERVAL_SECONDS cfg) Ready (history w).

(** The shipped settings with a negative interval. *)
Definition shipped_negative_interval : configuration := {|
  OUTPUT_BASE_PATH := OUTPUT_BASE_PATH shipped;
  INTERVAL_SECONDS := -1;
  FULLY_AUTO_MODE := FULLY_AUTO_MODE shipped;
  AUTO_SETTINGS := AUTO_SETTINGS shipped;
  MANUAL_SETTINGS := MANUAL_SETTINGS shipped
|}.

(** ** A program logic for the blocks of the script *)

(** The world after one more call. *)
Definition push (e : event) (w : world) : world :=
  World (e :: log w) (dirs w).

(** [triple P m Q E]: started in a world that satisfies [P], the block [m]
    leaves a world that satisfies [Q a] when it returns [a], and [E] when it
    raises or is still running. *)
Definition triple {A} (P : world -> Prop) (m : M A)
    (Q : A -> world -> Prop) (E : world -> Prop) : Prop :=
  forall env w r w',
    P w -> m env w = (r, w') ->
    match r with
    | Ok a => Q a w'
    | Raise _ => E w'
    | Running => E w'
    end.

(** [keeps I m]: the block [m] keeps the invariant [I] of worlds, however it
    ends. *)
Definition keeps {A} (I : world -> Prop) (m : M A) : Prop :=
  triple I m (fun _ => I) I.

(** An invariant that no call breaks by being recorded. *)
Definition stable (I : world -> Prop) : Prop :=
  forall w e, I w -> I (push e w).

(** ** What a run does to the file system *)

(** Every directory that was there when the run began is still there, and
    every directory there is was there then or is one that a recorded
    [os.makedirs] names, or an ancestor of one. *)
Definition made_by_run (fs : gset string) (w : world) : Prop :=
  fs ⊆ dirs w /\
  forall p, p ∈ dirs w ->
    p ∈ fs \/
    exists name ok, In (Makedirs name ok) (log w) /\ (p = name \/ In p (ancestors name)).

(** 1 when a capture is owed its sleep. *)
Definition owed (s : pace) : nat :=
  match s with
  | Ready => 0
  | Captured => 1
  end.

(** ** Settings *)

(** A configuration with other manual settings, or other automatic ones. *)
Definition with_manual_settings (cfg : configuration) (m : manual_settings)
    : configuration := {|
  OUTPUT_BASE_PATH := OUTPUT_BASE_PATH cfg;
  INTERVAL_SECONDS := INTERVAL_SECONDS cfg;
  FULLY_AUTO_MODE := FULLY_AUTO_MODE cfg;
  AUTO_SETTINGS := AUTO_SETTINGS cfg;
  MANUAL_SETTINGS := m
|}.

Definition with_auto_settings (cfg : configuration) (a : auto_settings)
    : configuration := {|
  OUTPUT_BASE_PATH := OUTPUT_BASE_PATH cfg;
  INTERVAL_SECONDS := INTERVAL_SECONDS cfg;
  FULLY_AUTO_MODE := FULLY_AUTO_MODE cfg;
  AUTO_SETTINGS := a;
  MANUAL_SETTINGS := MANUAL_SETTINGS cfg
|}.

(** The keys the manual branch ever puts in the control set. *)
Definition CONTROL_KEYS : list string :=
  [ "Brightness"; "Contrast"; "Saturation"; "Sharpness";
    "AeEnable"; "ExposureTime"; "AnalogueGain"; "AwbEnable"; "AwbMode" ]%string.

(** Manual settings outside the ranges the comments of the script give. *)
Definition out_of_range_manual : configuration := {|
  OUTPUT_BASE_PATH := "/tmp/x";
  INTERVAL_SECONDS := 10;
  FULLY_AUTO_MODE := false;
  AUTO_SETTINGS := AUTO_SETTINGS shipped;
  MANUAL_SETTINGS := {|
    resolution := (0, -1);
    brightness := 1000;
    contrast := -500;
    saturation := 101;
    sharpness := -101;
    exposure_time := Some (-7);
    white_balance := "cloudy"
  |}
|}.

(** The order of names.  From the year 1000 on a name is a string of
    numerals of fixed width, so comparing two names compares the fields one
    after the other. *)
Definition then_compare (c c' : comparison) : comparison :=
  match c with
  | Eq => c'
  | _ => c
  end.

(** The order of two readings, field by field down to the second. *)
Definition compare_to_the_second (a b : datetime) : comparison :=
  then_compare (year a ?= year b) (
  then_compare (month a ?= month b) (
  then_compare (day a ?= day b) (
  then_compare (hour a ?= hour b) (
  then_compare (minute a ?= minute b) (second a ?= second b))))).

(** The day within its year, from 1. *)
Definition day_of_year (dt : datetime) : Z :=
  days_before_month (year dt) (month dt) + day dt.

(** * Proofs *)

(** ** Strings and time stamps *)

Section Stamps.

Local Open Scope string_scope.
Local Open Scope Z_scope.
Local Arguments String.append !_ _ / : simpl nomatch.

Lemma append_length (a b : string) :
  String.length (a ++ b) = (String.length a + String.length b)%nat.
Proof. induction a as [|c a IH]; simpl; [reflexivity | now rewrite IH]. Qed.

Lemma append_assoc (a b c : string) : (a ++ b) ++ c = a ++ (b ++ c).
Proof. induction a as [|x a IH]; simpl; [reflexivity | now rewrite IH]. Qed.

Lemma append_inv_head (a b c : string) : a ++ b = a ++ c -> b = c.
Proof. induction a as [|x a IH]; simpl; intros H; [assumption | injection H; auto]. Qed.

(** Two concatenations that agree and whose heads have one length agree
    part by part. *)
Lemma append_inj (a a' b b' : string) :
  String.length a = String.length a' ->
  a ++ b = a' ++ b' -> a = a' /\ b = b'.
Proof.
  revert a'. induction a as [|x a IH]; intros [|x' a'] Hlen H; simpl in *;
    try discriminate.
  - split; [reflexivity | assumption].
  - injection H as -> H. injection Hlen as Hlen.
    destruct (IH a' Hlen H) as [-> ->]. split; reflexivity.
Qed.

Lemma matches_app (l1 l2 s1 s2 : string) :
  matches l1 s1 = true -> matches l2 s2 = true ->
  matches (l1 ++ l2) (s1 ++ s2) = true.
Proof.
  revert s1. induction l1 as [|p l1 IH]; intros [|c s1] H1 H2; simpl in *;
    try discriminate; [assumption |].
  apply andb_prop in H1 as [Hc H1]. rewrite Hc. simpl. now apply IH.
Qed.

Lemma matches_length (l s : string) :
  matches l s = true -> String.length s = String.length l.
Proof.
  revert s. induction l as [|p l IH]; intros [|c s] H; simpl in *;
    try discriminate; [reflexivity |].
  apply andb_prop in H as [_ H]. f_equal. now apply IH.
Qed.

Lemma pad_ok_2 : forallb (pad_ok 2) (seq 0 (Z.to_nat 100)) = true.
Proof. vm_compute. reflexivity. Qed.

Lemma all_from_spec (f : Z -> bool) (n : nat) (z x : Z) :
  all_from f z n = true -> z <= x < z + Z.of_nat n -> f x = true.
Proof.
  revert z. induction n as [|n IH]; intros z H Hx; [lia |].
  simpl in H. apply andb_prop in H as [Hz H].
  destruct (Z.eq_dec x z) as [-> | Hne]; [exact Hz |].
  apply (IH (z + 1) H). lia.
Qed.

Lemma pad_ok_4_all : all_from (pad_ok_at 4) 0 (Z.to_nat 10000) = true.
Proof. vm_compute. reflexivity. Qed.

Lemma pad_ok_4 : forallb (pad_ok 4) (seq 0 (Z.to_nat 10000)) = true.
Proof.
  apply forallb_forall. intros n Hin. apply in_seq in Hin.
  change (pad_ok_at 4 (Z.of_nat n) = true).
  apply (all_from_spec _ _ 0 _ pad_ok_4_all). lia.
Qed.

Lemma pad_ok_below (w : nat) (bound z : Z) :
  forallb (pad_ok w) (seq 0 (Z.to_nat bound)) = true ->
  0 <= z < bound ->
  (forall c, In c field_letters ->
     matches (Str.repeat_char c w) (Str.zero_pad w z) = true)
  /\ parse_from 0 (Str.zero_pad w z) = z.
Proof.
  intros Hall Hz. rewrite forallb_forall in Hall.
  specialize (Hall (Z.to_nat z)).
  assert (Hin : In (Z.to_nat z) (seq 0 (Z.to_nat bound))) by (apply in_seq; lia).
  specialize (Hall Hin). unfold pad_ok in Hall.
  rewrite Z2Nat.id in Hall by lia.
  apply andb_prop in Hall as [Hm Hp]. rewrite forallb_forall in Hm.
  split; [assumption | lia].
Qed.

Lemma pad2 (z : Z) :
  0 <= z < 100 ->
  (forall c, In c field_letters ->
     matches (Str.repeat_char c 2) (Str.zero_pad 2 z) = true)
  /\ parse_from 0 (Str.zero_pad 2 z) = z.
Proof. intros Hz. now apply (pad_ok_below 2 100 z pad_ok_2). Qed.

Lemma pad4 (z : Z) :
  0 <= z < 10000 ->
  (forall c, In c field_letters ->
     matches (Str.repeat_char c 4) (Str.zero_pad 4 z) = true)
  /\ parse_from 0 (Str.zero_pad 4 z) = z.
Proof. intros Hz. now apply (pad_ok_below 4 10000 z pad_ok_4). Qed.

Lemma pad2_length (z : Z) :
  0 <= z < 100 -> String.length (Str.zero_pad 2 z) = 2%nat.
Proof.
  intros Hz. destruct (pad2 z Hz) as [Hm _].
  apply (matches_length "YY"). apply (Hm "Y"%char). simpl. tauto.
Qed.

Lemma pad4_length (z : Z) :
  0 <= z < 10000 -> String.length (Str.zero_pad 4 z) = 4%nat.
Proof.
  intros Hz. destruct (pad4 z Hz) as [Hm _].
  apply (matches_length "YYYY"). apply (Hm "Y"%char). simpl. tauto.
Qed.

(** The ranges the [datetime] type guarantees. *)
Lemma datetime_ranges (dt : datetime) :
  0 <= year dt < 10000 /\ 0 <= month dt < 100 /\ 0 <= day dt < 100 /\
  0 <= hour dt < 100 /\ 0 <= minute dt < 100 /\ 0 <= second dt < 100 /\
  0 <= microsecond dt < 1000000.
Proof.
  destruct dt as [y mo d h mi s us ok]; simpl.
  unfold valid_fields in ok.
  repeat (apply andb_prop in ok as [ok ?]).
  assert (days_in_month y mo <= 31).
  { unfold days_in_month.
    repeat match goal with |- context [if ?b then _ else _] => destruct b end; lia. }
  lia.
Qed.

(** The value of a digit, as [parse_from] reads it. *)
Lemma digit_value (c : ascii) :
  Str.is_digit c = true -> 0 <= Z.of_nat (nat_of_ascii c) - 48 <= 9.
Proof.
  unfold Str.is_digit. cbv zeta. intros H.
  apply andb_prop in H as [H1 H2].
  apply Nat.leb_le in H1. apply Nat.leb_le in H2. lia.
Qed.







(** Zeros in front do not change the number read. *)
Lemma parse_from_zeros (k : nat) (s : string) :
  parse_from 0 (Str.repeat_char "0" k ++ s) = parse_from 0 s.
Proof. induction k as [|k IH]; [reflexivity | exact IH]. Qed.

(** The numeral of a year: its digits, read back, give the year; from the
    year 1000 on there are four of them. *)
Lemma decimal_parse (z : Z) :
  0 <= z < 10000 -> parse_from 0 (Str.decimal z) = z.
Proof.
  intros Hz. destruct (pad4 z Hz) as [_ H].
  unfold Str.zero_pad in H. cbv zeta in H. now rewrite parse_from_zeros in H.
Qed.


Lemma decimal_year (z : Z) :
  1000 <= z < 10000 -> Str.decimal z = Str.zero_pad 4 z.
Proof.
  intros Hz. assert (Hz' : 0 <= z < 10000) by lia.
  destruct (pad4 z Hz') as [Hm Hp].
  specialize (Hm "Y"%char (or_introl eq_refl)).
  unfold Str.zero_pad in *. cbv zeta in *.
  destruct (4 - Str.len (Str.decimal z))%nat as [|k]; [reflexivity |]. exfalso.
  cbn [Str.repeat_char String.append] in Hm, Hp.
  simpl in Hm.
  destruct (Str.repeat_char "0" k ++ Str.decimal z) as [|c1 [|c2 [|c3 [|c4 t]]]];
    simpl in Hm; try discriminate;
    apply andb_prop in Hm as [D1 Hm]; try discriminate;
    apply andb_prop in Hm as [D2 Hm]; try discriminate;
    apply andb_prop in Hm as [D3 Hm]; try discriminate.
  apply digit_value in D1. apply digit_value in D2. apply digit_value in D3.
  cbn [parse_from] in Hp.
  change (Z.of_nat (nat_of_ascii "0") - 48) with 0 in Hp. lia.
Qed.

Lemma directory_name_eq (dt : datetime) :
  directory_name dt =
  Str.decimal (year dt) ++ Str.zero_pad 2 (month dt) ++ Str.zero_pad 2 (day dt)
  ++ "_" ++ Str.zero_pad 2 (hour dt) ++ Str.zero_pad 2 (minute dt)
  ++ Str.zero_pad 2 (second dt).
Proof.
  unfold directory_name. cbn [strftime directive Ascii.eqb Bool.eqb].
  set (S := Str.zero_pad 2 (second dt)).
  assert (HS : S ++ "" = S).
  { clearbody S. induction S; simpl; congruence. }
  cbn. rewrite HS. reflexivity.
Qed.

Lemma image_name_eq (dt : datetime) :
  image_name dt = "image_" ++ directory_name dt ++ ".jpg".
Proof.
  rewrite directory_name_eq. unfold image_name.
  cbn [strftime directive Ascii.eqb Bool.eqb]. cbn.
  repeat (rewrite ?append_assoc; simpl). reflexivity.
Qed.

(** From the year 1000 on the session directory is named by the layout. *)
Lemma directory_name_layout (dt : datetime) :
  1000 <= year dt ->
  matches DIRECTORY_LAYOUT (directory_name dt) = true.
Proof.
  intros Hyear. rewrite directory_name_eq.
  destruct (datetime_ranges dt) as (Hy & Hmo & Hd & Hh & Hmi & Hs & _).
  rewrite decimal_year by lia.
  change DIRECTORY_LAYOUT with ("YYYY" ++ "MM" ++ "DD" ++ "_" ++ "HH" ++ "MM" ++ "SS").
  repeat apply matches_app; try reflexivity.
  - apply (proj1 (pad4 _ Hy) "Y"%char). simpl. tauto.
  - apply (proj1 (pad2 _ Hmo) "M"%char). simpl. tauto.
  - apply (proj1 (pad2 _ Hd) "D"%char). simpl. tauto.
  - apply (proj1 (pad2 _ Hh) "H"%char). simpl. tauto.
  - apply (proj1 (pad2 _ Hmi) "M"%char). simpl. tauto.
  - apply (proj1 (pad2 _ Hs) "S"%char). simpl. tauto.
Qed.

Lemma image_name_layout (dt : datetime) :
  1000 <= year dt ->
  matches IMAGE_LAYOUT (image_name dt) = true.
Proof.
  intros Hyear. rewrite image_name_eq.
  change IMAGE_LAYOUT with ("image_" ++ DIRECTORY_LAYOUT ++ ".jpg").
  repeat apply matches_app;
    first [ now apply directory_name_layout | reflexivity ].
Qed.




(** Equal names come from readings in one second, and conversely. *)
Lemma directory_name_inj (a b : datetime) :
  directory_name a = directory_name b -> same_second a b.
Proof.
  rewrite !directory_name_eq. intros H.
  destruct (datetime_ranges a) as (Hy & Hmo & Hd & Hh & Hmi & Hs & _).
  destruct (datetime_ranges b) as (Hy' & Hmo' & Hd' & Hh' & Hmi' & Hs' & _).
  pose proof (decimal_parse _ Hy) as Py. pose proof (decimal_parse _ Hy') as Py'.
  pose proof (pad2 _ Hmo) as [_ Pmo]. pose proof (pad2 _ Hmo') as [_ Pmo'].
  pose proof (pad2 _ Hd) as [_ Pd]. pose proof (pad2 _ Hd') as [_ Pd'].
  pose proof (pad2 _ Hh) as [_ Ph]. pose proof (pad2 _ Hh') as [_ Ph'].
  pose proof (pad2 _ Hmi) as [_ Pmi]. pose proof (pad2 _ Hmi') as [_ Pmi'].
  pose proof (pad2 _ Hs) as [_ Ps]. pose proof (pad2 _ Hs') as [_ Ps'].
  pose proof (pad2_length _ Hmo) as Mmo. pose proof (pad2_length _ Hmo') as Mmo'.
  pose proof (pad2_length _ Hd) as Md. pose proof (pad2_length _ Hd') as Md'.
  pose proof (pad2_length _ Hh) as Mh. pose proof (pad2_length _ Hh') as Mh'.
  pose proof (pad2_length _ Hmi) as Mmi. pose proof (pad2_length _ Hmi') as Mmi'.
  pose proof (pad2_length _ Hs) as Ms. pose proof (pad2_length _ Hs') as Ms'.
  assert (My : String.length (Str.decimal (year a))
               = String.length (Str.decimal (year b))).
  { apply (f_equal String.length) in H. rewrite !append_length in H.
    rewrite Mmo, Mmo', Md, Md', Mh, Mh', Mmi, Mmi', Ms, Ms' in H. lia. }
  apply append_inj in H as [Ey H]; [| assumption].
  apply append_inj in H as [Emo H]; [| congruence].
  apply append_inj in H as [Ed H]; [| congruence].
  apply append_inj in H as [_ H]; [| reflexivity].
  apply append_inj in H as [Eh H]; [| congruence].
  apply append_inj in H as [Emi Es]; [| congruence].
  unfold same_second. repeat split; congruence.
Qed.

Lemma same_second_directory_name (a b : datetime) :
  same_second a b -> directory_name a = directory_name b.
Proof.
  intros (Hy & Hmo & Hd & Hh & Hmi & Hs). rewrite !directory_name_eq. congruence.
Qed.

Lemma image_name_inj (a b : datetime) :
  image_name a = image_name b -> same_second a b.
Proof.
  rewrite !image_name_eq. intros H.
  apply append_inv_head in H.
  assert (Hlen : String.length (directory_name a)
                 = String.length (directory_name b)).
  { apply (f_equal String.length) in H. rewrite !append_length in H.
    simpl in H. lia. }
  apply append_inj in H as [H _]; [| assumption].
  now apply directory_name_inj.
Qed.

Lemma same_second_image_name (a b : datetime) :
  same_second a b -> image_name a = image_name b.
Proof.
  intros H. rewrite !image_name_eq. now rewrite (same_second_directory_name a b H).
Qed.

Lemma path_join_relative (a b : string) :
  Str.startswith_sep b = false -> path_join a b = a ++ separator a ++ b.
Proof.
  intros Hb. unfold path_join, separator. rewrite Hb.
  destruct (String.eqb a "" || Str.endswith_sep a)%bool; reflexivity.
Qed.



Lemma image_name_relative (dt : datetime) :
  Str.startswith_sep (image_name dt) = false.
Proof. rewrite image_name_eq. reflexivity. Qed.

Lemma path_join_image_inj (d : string) (a b : datetime) :
  path_join d (image_name a) = path_join d (image_name b) -> same_second a b.
Proof.
  rewrite !path_join_relative by apply image_name_relative.
  intros H. apply append_inv_head in H. apply append_inv_head in H.
  now apply image_name_inj.
Qed.


(** Readings in one second are less than a second apart. *)
Lemma same_second_micros (a b : datetime) :
  same_second a b -> micros b - micros a < 1000000.
Proof.
  intros (Hy & Hmo & Hd & Hh & Hmi & Hs).
  unfold micros, toordinal. rewrite Hy, Hmo, Hd, Hh, Hmi, Hs.
  pose proof (datetime_ranges a). pose proof (datetime_ranges b). lia.
Qed.

End Stamps.

(** The example of the docstring of [create_output_directory], and the
    lower-casing of a white-balance string. *)
Example directory_name_101500 :
  path_join "/home/pi/Pictures"
    (directory_name (Datetime 2025 1 3 10 15 0 0 eq_refl))
  = "/home/pi/Pictures/20250103_101500"%string.
Proof. reflexivity. Qed.

Example image_name_101500 :
  image_name (Datetime 2025 1 3 10 15 0 0 eq_refl)
  = "image_20250103_101500.jpg"%string.
Proof. reflexivity. Qed.

Example lower_DayLight : Str.lower "DayLight" = "daylight"%string.
Proof. reflexivity. Qed.

(** ** Straight-line blocks *)

Section Kit.

Variable env : environment.

Lemma follows_ret {A} (n : nat) (a : A) : follows env n (ret a) [] a.
Proof.
  intros w _. exists (Ok a), w, []. repeat split; reflexivity.
Qed.

Lemma follows_call (n : nat) (e : event) : follows env n (call e) [e] tt.
Proof.
  intros w Hn. unfold call. rewrite Hn.
  destruct (fault env n) as [x|] eqn:Hx.
  - exists (Raise x), (World (e :: log w) (dirs w)), [e].
    repeat split; [reflexivity |]. exists [], e. simpl.
    now rewrite Nat.add_0_r.
  - exists (Ok tt), (World (e :: log w) (dirs w)), [e]. repeat split.
Qed.

Lemma follows_bind {A B} (n : nat) (m : M A) (k : A -> M B)
    (es es2 : list event) (a : A) (b : B) :
  follows env n m es a ->
  follows env (n + length es) (k a) es2 b ->
  follows env n (bind m k) (es ++ es2) b.
Proof.
  intros Hm Hk w Hn.
  destruct (Hm w Hn) as (r & w1 & es1 & Hrun & Hlog & Hr).
  unfold bind. rewrite Hrun. destruct r as [a'|x|].
  - destruct Hr as [-> ->].
    assert (Hn1 : length (log w1) = (n + length es)%nat).
    { rewrite Hlog, length_app, length_rev. lia. }
    destruct (Hk w1 Hn1) as (r2 & w2 & es2' & Hrun2 & Hlog2 & Hr2).
    exists r2, w2, (es ++ es2'). split; [assumption |]. split.
    { rewrite Hlog2, Hlog, rev_app_distr, app_assoc. reflexivity. }
    destruct r2 as [b'|x|]; [| | contradiction].
    + destruct Hr2 as [-> ->]. split; reflexivity.
    + destruct Hr2 as [Hpre (pre & e & -> & Hx)]. split.
      * now apply prefix_app.
      * exists (es ++ pre), e. split; [now rewrite app_assoc |].
        rewrite length_app, Nat.add_assoc. exact Hx.
  - exists (Raise x), w1, es1. split; [reflexivity |]. split; [assumption |].
    destruct Hr as [Hpre Hx]. split; [| exact Hx].
    now apply prefix_app_r.
  - contradiction.
Qed.

(** One call, then the rest. *)
Lemma follows_step {B} (n : nat) (e : event) (k : unit -> M B)
    (es : list event) (b : B) :
  follows env (S n) (k tt) es b ->
  follows env n (bind (call e) k) (e :: es) b.
Proof.
  intros Hk. apply (follows_bind n (call e) k [e] es tt b).
  - apply follows_call.
  - simpl. now rewrite Nat.add_1_r.
Qed.

(** A last call. *)
Lemma follows_last {B} (n : nat) (e : event) (b : B) :
  follows env n (bind (call e) (fun _ => ret b)) [e] b.
Proof. apply follows_step, follows_ret. Qed.

Lemma follows_now (n : nat) :
  follows env n datetime_now [Now (clock env n)] (clock env n).
Proof.
  intros w Hn. unfold datetime_now. rewrite Hn.
  now apply (follows_last n (Now (clock env n)) (clock env n)).
Qed.

Lemma follows_makedirs (n : nat) (name : string) :
  follows env n (makedirs name true) [Makedirs name true] tt.
Proof.
  intros w Hn. unfold makedirs.
  destruct (follows_call n (Makedirs name true) w Hn)
    as (r & w1 & es1 & Hrun & Hlog & Hr).
  rewrite Hrun. destruct r as [[]|x|]; [| | contradiction].
  - destruct Hr as [_ ->]. destruct (decide (name ∈ dirs w)).
    + exists (Ok tt), w1, [Makedirs name true]. repeat split; assumption.
    + eexists (Ok tt), _, [Makedirs name true]. split; [reflexivity |].
      repeat split; assumption.
  - exists (Raise x), w1, es1. repeat split; tauto.
Qed.

Lemma follows_create_output_directory (n : nat) (base_path : string) :
  follows env n (create_output_directory base_path)
    [ Now (clock env n);
      Makedirs (path_join base_path (directory_name (clock env n))) true ]
    (path_join base_path (directory_name (clock env n))).
Proof.
  unfold create_output_directory.
  apply (follows_bind _ _ _ _ _ _ _ (follows_now n)).
  apply (follows_bind _ _ _ _ [] _ _ (follows_makedirs _ _)).
  apply follows_ret.
Qed.

Lemma follows_create_still_configuration (n : nat) (main : dict) :
  follows env n (create_still_configuration main)
    [CreateStillConfiguration main] (StillConfiguration main).
Proof. apply follows_last. Qed.

Lemma follows_configure_auto (n : nat) (cfg : configuration) :
  follows env n (configure_auto cfg) (auto_script cfg) tt.
Proof.
  unfold configure_auto, auto_script, configure, print.
  eapply (follows_bind _ _ _ _ _ _ _ (follows_create_still_configuration _ _)).
  do 3 apply follows_step. apply follows_call.
Qed.

Lemma awb_lookup (s : string) : AWB_MODE_MAP !! s = awb_of_string s.
Proof.
  unfold AWB_MODE_MAP, awb_of_string.
  repeat (rewrite lookup_insert; case_decide as Heq;
          [ subst s; reflexivity
          | apply String.eqb_neq in Heq;
            rewrite String.eqb_sym in Heq; rewrite Heq; clear Heq ]).
  apply lookup_empty.
Qed.

Lemma awb_of_string_auto (s : string) :
  awb_of_string s = Some Auto <-> s = "auto".
Proof.
  unfold awb_of_string. split.
  - destruct (String.eqb_spec s "auto"); [tauto |].
    repeat match goal with
           | |- context [String.eqb ?a ?b] => destruct (String.eqb a b)
           end; discriminate.
  - intros ->. reflexivity.
Qed.

Lemma follows_handle_exposure (n : nat) (s : manual_settings) (c : dict) :
  follows env n (handle_exposure s c) (exposure_lines s) (exposure_controls s c).
Proof.
  unfold handle_exposure, exposure_lines, exposure_controls, print.
  destruct (exposure_time s) as [t|].
  - apply follows_step. apply follows_last.
  - apply follows_last.
Qed.

Lemma follows_handle_white_balance (n : nat) (s : manual_settings) (c : dict) :
  follows env n (handle_white_balance s c)
    [Print (white_balance_line s)] (white_balance_controls s c).
Proof.
  unfold handle_white_balance, white_balance_line, white_balance_controls, print.
  rewrite awb_lookup.
  destruct (awb_of_string (Str.lower (white_balance s))) as [mode|] eqn:Hwb.
  - destruct (String.eqb_spec (Str.lower (white_balance s)) "auto") as [Ha|Ha].
    + apply awb_of_string_auto in Ha. rewrite Ha in Hwb. injection Hwb as <-.
      apply follows_last.
    + assert (mode <> Auto).
      { intros ->. now apply awb_of_string_auto in Hwb. }
      destruct mode; try contradiction; apply follows_last.
  - apply follows_last.
Qed.

Lemma follows_log_settings (n : nat) (s : manual_settings) :
  follows env n (log_settings s) (summary_lines s) tt.
Proof.
  unfold log_settings, summary_lines, print. simpl.
  do 8 apply follows_step.
  destruct (exposure_time s); [apply follows_call | apply follows_ret].
Qed.

Lemma follows_configure_manual (n : nat) (cfg : configuration) :
  follows env n (configure_manual cfg) (manual_script cfg) tt.
Proof.
  unfold configure_manual, manual_script, manual_prelude, configure, set_controls.
  rewrite <- !app_assoc.
  eapply (follows_bind _ _ _ _ _ _ _ (follows_create_still_configuration _ _)).
  apply follows_step.
  eapply (follows_bind _ _ _ _ _ _ _ (follows_handle_exposure _ _ _)).
  eapply (follows_bind _ _ _ _ _ _ _ (follows_handle_white_balance _ _ _)).
  apply follows_step. apply follows_log_settings.
Qed.

Lemma follows_configure (n : nat) (cfg : configuration) :
  follows env n
    (if FULLY_AUTO_MODE cfg then configure_auto cfg else configure_manual cfg)
    (configure_script cfg) tt.
Proof.
  unfold configure_script. destruct (FULLY_AUTO_MODE cfg);
    [apply follows_configure_auto | apply follows_configure_manual].
Qed.

Lemma follows_setup (cfg : configuration) :
  follows env 0 (setup cfg)
    (setup_script cfg (clock env (now_index cfg)))
    (session_directory cfg (clock env (now_index cfg))).
Proof.
  unfold setup, setup_script, Picamera2, start, print.
  apply follows_step.
  eapply (follows_bind _ _ _ _ _ _ _ (follows_configure _ _)).
  unfold launch_script. do 2 apply follows_step.
  eapply (follows_bind _ _ _ _ _ _ _ (follows_create_output_directory _ _)).
  apply follows_last.
Qed.

End Kit.

(** ** The loop and the guarded block *)

Section Loop.

Variable cfg : configuration.
Variable d : string.

Lemma loop_body_prefix (dt : datetime) (body : list event) :
  body `prefix_of` turn cfg d dt -> loop_body d body.
Proof.
  intros [rest Hrest]. unfold turn in Hrest.
  destruct body as [|e1 [|e2 [|e3 [|e4 [|e5 body]]]]]; simpl in Hrest;
    try discriminate; simplify_eq; split;
    repeat constructor; simpl; try apply prefix_nil; reflexivity.
Qed.

Lemma loop_body_turn (dt : datetime) (body : list event) :
  loop_body d body -> loop_body d (turn cfg d dt ++ body).
Proof.
  intros [Hall Hpre]. split.
  - apply Forall_app. split; [repeat constructor | assumption].
  - simpl. now apply prefix_cons.
Qed.

Lemma run_call_bind {B} (e : event) (k : unit -> M B) (env : environment)
    (w : world) :
  bind (call e) k env w =
  match fault env (length (log w)) with
  | Some x => (Raise x, World (e :: log w) (dirs w))
  | None => k tt env (World (e :: log w) (dirs w))
  end.
Proof. unfold bind, call. now destruct (fault env (length (log w))). Qed.

Lemma run_now_bind {B} (k : datetime -> M B) (env : environment) (w : world) :
  bind datetime_now k env w =
  match fault env (length (log w)) with
  | Some x => (Raise x, World (Now (clock env (length (log w))) :: log w) (dirs w))
  | None =>
      k (clock env (length (log w))) env
        (World (Now (clock env (length (log w))) :: log w) (dirs w))
  end.
Proof.
  unfold datetime_now, bind, call, ret. cbn beta.
  destruct (fault env (length (log w))); reflexivity.
Qed.

Lemma capture_loop_spec (fuel : nat) (env : environment) :
  forall w r w',
    capture_loop fuel cfg d env w = (r, w') ->
    exists body,
      log w' = rev body ++ log w /\ loop_body d body /\
      match r with
      | Ok _ => False
      | Running =>
          calm env (length (log w)) (length (log w) + length body)
          /\ length body = (4 * fuel)%nat
      | Raise x =>
          (x = Exception "ValueError" /\ INTERVAL_SECONDS cfg < 0) \/
          exists pre e,
            body = pre ++ [e] /\ fault env (length (log w) + length pre) = Some x
      end.
Proof.
  induction fuel as [|fuel IH]; intros w r w' Hrun.
  - injection Hrun as <- <-. exists []. repeat split; try constructor.
    + apply prefix_nil.
    + intros n Hn. simpl in Hn. lia.
  - cbn [capture_loop] in Hrun. unfold print, capture_file, sleep in Hrun.
    rewrite run_now_bind in Hrun.
    set (n := length (log w)) in *.
    set (dt := clock env n) in *.
    fold (image_name dt) in Hrun. fold (image_path d dt) in Hrun.
    destruct (fault env n) as [x|] eqn:F0.
    { injection Hrun as <- <-. exists [Now dt]. split; [reflexivity |]. split.
      - apply (loop_body_prefix dt). now exists (tail (turn cfg d dt)).
      - right. exists [], (Now dt). simpl. now rewrite Nat.add_0_r. }
    rewrite run_call_bind in Hrun. cbn [log dirs length] in Hrun. fold n in Hrun.
    destruct (fault env (S n)) as [x|] eqn:F1.
    { injection Hrun as <- <-. eexists [Now dt; _]. split; [reflexivity |]. split.
      - apply (loop_body_prefix dt). now exists (drop 2 (turn cfg d dt)).
      - right. eexists [Now dt], _. split; [reflexivity |].
        simpl. now rewrite Nat.add_1_r. }
    rewrite run_call_bind in Hrun. cbn [log dirs length] in Hrun. fold n in Hrun.
    destruct (fault env (S (S n))) as [x|] eqn:F2.
    { injection Hrun as <- <-. eexists [Now dt; _; _]. split; [reflexivity |]. split.
      - apply (loop_body_prefix dt). now exists (drop 3 (turn cfg d dt)).
      - right. eexists [Now dt; _], _. split; [reflexivity |].
        simpl. now replace (n + 2)%nat with (S (S n)) by lia. }
    destruct (INTERVAL_SECONDS cfg <? 0) eqn:Hneg.
    { unfold bind, raise in Hrun. injection Hrun as <- <-. eexists [Now dt; _; _]. split; [reflexivity |]. split.
      - apply (loop_body_prefix dt). now exists (drop 3 (turn cfg d dt)).
      - left. split; [reflexivity | lia]. }
    rewrite run_call_bind in Hrun. cbn [log dirs length] in Hrun. fold n in Hrun.
    destruct (fault env (S (S (S n)))) as [x|] eqn:F3.
    { injection Hrun as <- <-. exists (turn cfg d dt). split; [reflexivity |]. split.
      - now apply (loop_body_prefix dt).
      - right. eexists [Now dt; _; _], _. split; [reflexivity |].
        simpl. now replace (n + 3)%nat with (S (S (S n))) by lia. }
    apply IH in Hrun as (body & Hlog & Hbody & Hr). cbn [log length] in Hlog, Hr.
    exists (turn cfg d dt ++ body). split.
    { rewrite Hlog, rev_app_distr, <- app_assoc. reflexivity. }
    split; [now apply loop_body_turn |].
    destruct r as [u|x|]; [contradiction | |].
    + destruct Hr as [Hr | (pre & e & -> & Hx)]; [now left | right].
      exists (turn cfg d dt ++ pre), e. split; [now rewrite app_assoc |].
      rewrite length_app. simpl.
      now replace (n + S (S (S (S (length pre)))))%nat
        with (S (S (S (S n))) + length pre)%nat by lia.
    + destruct Hr as [Hcalm Hlen]. split.
      * intros i Hi. rewrite length_app in Hi. simpl in Hi.
        destruct (decide (i = n)) as [-> |]; [assumption |].
        destruct (decide (i = S n)) as [-> |]; [assumption |].
        destruct (decide (i = S (S n))) as [-> |]; [assumption |].
        destruct (decide (i = S (S (S n)))) as [-> |]; [assumption |].
        apply Hcalm. lia.
      * rewrite length_app. simpl. lia.
Qed.

End Loop.

Section Session.

Variable cfg : configuration.
Variable d : string.
Variable env : environment.

(** The body of the [try]: the announcement, then the loop. *)
Lemma guarded_spec (fuel : nat) (w : world) (r : outcome unit) (w1 : world) :
  (print STARTING ;; capture_loop fuel cfg d)%prog env w = (r, w1) ->
  exists body,
    log w1 = rev (Print STARTING :: body) ++ log w /\ loop_body d body /\
    match r with
    | Ok _ => False
    | Running =>
        calm env (length (log w)) (length (log w1))
        /\ length body = (4 * fuel)%nat
    | Raise x =>
        (x = Exception "ValueError" /\ INTERVAL_SECONDS cfg < 0) \/
        fault env (length (log w1) - 1) = Some x
    end.
Proof.
  unfold print. rewrite run_call_bind.
  destruct (fault env (length (log w))) as [x|] eqn:F0.
  - intros [= <- <-]. exists []. split; [reflexivity |]. split.
    + split; [constructor | apply prefix_nil].
    + right. simpl. now rewrite Nat.sub_0_r.
  - intros Hrun. apply capture_loop_spec in Hrun as (body & Hlog & Hbody & Hr).
    cbn [log length] in Hlog, Hr. exists body. split.
    { rewrite Hlog. simpl. now rewrite <- app_assoc. }
    split; [assumption |].
    assert (Hlen : length (log w1) = (S (length (log w)) + length body)%nat).
    { rewrite Hlog, length_app, length_rev. simpl. lia. }
    destruct r as [u|x|]; [assumption | |].
    + destruct Hr as [Hr | (pre & e & -> & Hx)]; [now left | right].
      rewrite Hlen, length_app. cbn [length].
      match goal with
      | |- fault env ?a = _ =>
          replace a with (S (length (log w)) + length pre)%nat by lia
      end.
      exact Hx.
    + destruct Hr as [Hcalm Hfuel]. split; [| assumption].
      intros i Hi. destruct (decide (i = length (log w))) as [-> |]; [assumption |].
      apply Hcalm. lia.
Qed.

(** The [finally] block. *)
Lemma cleanup_spec (w1 : world) (r : outcome unit) (w2 : world) :
  (stop ;; print STOPPED)%prog env w1 = (r, w2) ->
  (r = Ok tt /\ log w2 = Print STOPPED :: Stop :: log w1
   /\ fault env (length (log w1)) = None
   /\ fault env (S (length (log w1))) = None)
  \/ (exists x, r = Raise x /\ log w2 = Print STOPPED :: Stop :: log w1)
  \/ (exists x, r = Raise x /\ log w2 = Stop :: log w1).
Proof.
  unfold stop, print. rewrite run_call_bind.
  destruct (fault env (length (log w1))) as [x|] eqn:F0.
  - intros [= <- <-]. right. right. now exists x.
  - unfold call. cbn [log dirs length].
    destruct (fault env (S (length (log w1)))) as [x|] eqn:F1; intros [= <- <-].
    + right. left. now exists x.
    + left. repeat split; assumption.
Qed.

(** Lines 181-202, whatever the environment does. *)
Lemma capture_session_spec (fuel : nat) (w : world) (r : outcome unit)
    (w' : world) :
  capture_session fuel cfg d env w = (r, w') ->
  exists body finale,
    log w' = rev (Print STARTING :: body ++ finale) ++ log w /\
    loop_body d body /\
    match r with
    | Running => finale = []
    | _ => In finale finales
    end.
Proof.
  unfold capture_session, try_finally, try_except_KeyboardInterrupt.
  destruct ((print STARTING ;; capture_loop fuel cfg d)%prog env w)
    as [r1 w1] eqn:Hbody.
  apply guarded_spec in Hbody as (body & Hlog & Hbody & Hr1).
  destruct r1 as [u|x|]; [contradiction | |].
  - destruct x as [|name].
    + (* the interrupt: the handler, then the cleanup *)
      unfold print at 1, call at 1.
      destruct (fault env (length (log w1))) as [y|] eqn:Fh.
      * destruct ((stop ;; print STOPPED)%prog env _) as [r2 w2] eqn:Hc.
        apply cleanup_spec in Hc.
        cbn [log] in Hc.
        destruct Hc as [(-> & Hl & _) | [(z & -> & Hl) | (z & -> & Hl)]];
          intros [= <- <-]; exists body;
          [ exists [Print STOPPING; Stop; Print STOPPED]
          | exists [Print STOPPING; Stop; Print STOPPED]
          | exists [Print STOPPING; Stop] ];
          (split; [ rewrite Hl, Hlog; simpl; rewrite !rev_app_distr; simpl;
                    rewrite <- ?app_assoc; reflexivity
                  | split; [assumption | simpl; tauto] ]).
      * destruct ((stop ;; print STOPPED)%prog env _) as [r2 w2] eqn:Hc.
        apply cleanup_spec in Hc.
        cbn [log] in Hc.
        destruct Hc as [(-> & Hl & _) | [(z & -> & Hl) | (z & -> & Hl)]];
          intros [= <- <-]; exists body;
          [ exists [Print STOPPING; Stop; Print STOPPED]
          | exists [Print STOPPING; Stop; Print STOPPED]
          | exists [Print STOPPING; Stop] ];
          (split; [ rewrite Hl, Hlog; simpl; rewrite !rev_app_distr; simpl;
                    rewrite <- ?app_assoc; reflexivity
                  | split; [assumption | simpl; tauto] ]).
    + (* any other exception: the cleanup only *)
      destruct ((stop ;; print STOPPED)%prog env w1) as [r2 w2] eqn:Hc.
      apply cleanup_spec in Hc.
      destruct Hc as [(-> & Hl & _) | [(z & -> & Hl) | (z & -> & Hl)]];
        intros [= <- <-]; exists body;
        [ exists [Stop; Print STOPPED]
        | exists [Stop; Print STOPPED]
        | exists [Stop] ];
        (split; [ rewrite Hl, Hlog; simpl; rewrite !rev_app_distr; simpl;
                  rewrite <- ?app_assoc; reflexivity
                | split; [assumption | simpl; tauto] ]).
  - intros [= <- <-]. exists body, []. rewrite app_nil_r. auto.
Qed.

(** Lines 181-202 when the one thing the environment raises is an
    interrupt, at the [k]-th call. *)
Lemma capture_session_interrupted (fuel : nat) (w : world) (k : nat) :
  (length (log w) <= k)%nat ->
  fault env k = Some KeyboardInterrupt ->
  (forall i, (length (log w) <= i)%nat -> i <> k -> fault env i = None) ->
  0 <= INTERVAL_SECONDS cfg ->
  (k < fuel)%nat ->
  exists w' body,
    capture_session fuel cfg d env w = (Ok tt, w') /\
    log w' = rev (Print STARTING :: body ++ [Print STOPPING; Stop; Print STOPPED])
             ++ log w /\
    loop_body d body /\
    (length (log w) + S (length body) = S k)%nat.
Proof.
  intros Hk Hint Hcalm Hpos Hfuel.
  unfold capture_session, try_finally, try_except_KeyboardInterrupt.
  destruct ((print STARTING ;; capture_loop fuel cfg d)%prog env w)
    as [r1 w1] eqn:Hbody.
  apply guarded_spec in Hbody as (body & Hlog & Hbody & Hr1).
  assert (Hlen : length (log w1) = (length (log w) + S (length body))%nat).
  { rewrite Hlog, length_app, length_rev. simpl. lia. }
  destruct r1 as [u|x|]; [contradiction | |].
  - destruct Hr1 as [[_ Hneg] | Hx]; [lia |].
    assert (Hlast : (length (log w1) - 1)%nat = k).
    { destruct (decide ((length (log w1) - 1)%nat = k)) as [|Hne]; [assumption |].
      rewrite Hcalm in Hx; [discriminate | lia | assumption]. }
    rewrite Hlast, Hint in Hx. injection Hx as <-.
    unfold print at 1, call at 1.
    rewrite (Hcalm (length (log w1))) by lia.
    unfold stop, print. rewrite run_call_bind. cbn [log dirs length].
    rewrite (Hcalm (S (length (log w1)))) by lia.
    unfold call. cbn [log dirs length].
    rewrite (Hcalm (S (S (length (log w1))))) by lia.
    eexists _, body. split; [reflexivity |]. cbn [log].
    split; [| split; [assumption | lia]].
    rewrite Hlog. simpl. rewrite !rev_app_distr. simpl.
    rewrite <- ?app_assoc. reflexivity.
  - destruct Hr1 as [Hc Hf]. rewrite (Hc k) in Hint; [discriminate | lia].
Qed.

End Session.

(** ** Histories *)

Section Histories.

Lemma captures_app (h1 h2 : list event) :
  captures (h1 ++ h2) = captures h1 ++ captures h2.
Proof.
  induction h1 as [|e h1 IH]; [reflexivity |].
  destruct e; simpl; rewrite IH; reflexivity.
Qed.

Lemma readings_app (h1 h2 : list event) :
  readings (h1 ++ h2) = readings h1 ++ readings h2.
Proof.
  induction h1 as [|e h1 IH]; [reflexivity |].
  destruct e; simpl; rewrite IH; reflexivity.
Qed.

Lemma controls_applied_app (h1 h2 : list event) :
  controls_applied (h1 ++ h2) = controls_applied h1 ++ controls_applied h2.
Proof.
  induction h1 as [|e h1 IH]; [reflexivity |].
  destruct e; simpl; rewrite IH; reflexivity.
Qed.



Lemma device_run_app (s : device_state) (h1 h2 : list event) :
  device_run s (h1 ++ h2) =
  match device_run s h1 with
  | Some s' => device_run s' h2
  | None => None
  end.
Proof.
  revert s. induction h1 as [|e h1 IH]; intros s; [reflexivity |].
  simpl. destruct (device_step s e); [apply IH | reflexivity].
Qed.

(** A history that obeys the life cycle does so at every point. *)
Lemma device_run_prefix (s : device_state) (h1 h2 : list event) :
  h1 `prefix_of` h2 -> is_Some (device_run s h2) -> is_Some (device_run s h1).
Proof.
  intros [rest ->]. rewrite device_run_app.
  destruct (device_run s h1); [eauto | intros [? [=]]].
Qed.

(** The life cycle lets each of open, configure, start and stop happen at
    most once: exactly when the handle moved past the state it leads to. *)
Lemma device_run_counts (h : list event) :
  forall a b,
    device_run a h = Some b ->
    (rank a <= rank b)%nat /\
    count is_open h = passed a b Opened /\
    count is_configure h = passed a b Configured /\
    count is_start h = passed a b Started /\
    count is_stop h = passed a b Stopped.
Proof.
  induction h as [|e h IH]; intros a b Hrun.
  - injection Hrun as <-. destruct a; repeat split; reflexivity.
  - simpl in Hrun. destruct (device_step a e) as [a'|] eqn:Hstep; [| discriminate].
    destruct (IH a' b Hrun) as (Hle & Ho & Hc & Hs & Ht).
    unfold count in *. simpl.
    destruct e, a; simpl in Hstep; try discriminate;
      injection Hstep as <-; simpl;
      rewrite ?Ho, ?Hc, ?Hs, ?Ht; destruct b; simpl in Hle; try lia;
      repeat split; try reflexivity; simpl; lia.
Qed.

Lemma loop_events_device (body : list event) :
  Forall (fun e => loop_event e = true) body ->
  device_run Started body = Some Started.
Proof.
  induction 1 as [|e body He _ IH]; [reflexivity |].
  destruct e; try discriminate; simpl; exact IH.
Qed.

Lemma loop_events_controls (body : list event) :
  Forall (fun e => loop_event e = true) body -> controls_applied body = [].
Proof.
  induction 1 as [|e body He _ IH]; [reflexivity |].
  destruct e; try discriminate; simpl; exact IH.
Qed.

Lemma loop_events_in (body : list event) (e : event) :
  Forall (fun e => loop_event e = true) body -> In e body -> loop_event e = true.
Proof. intros Hall Hin. rewrite List.Forall_forall in Hall. now apply Hall. Qed.

Lemma finale_device (finale : list event) :
  In finale finales -> device_run Started finale = Some Stopped.
Proof.
  unfold finales. simpl.
  intros [<- | [<- | [<- | [<- | []]]]]; reflexivity.
Qed.

Lemma finale_plain (finale : list event) :
  In finale finales ->
  captures finale = [] /\ readings finale = [] /\ controls_applied finale = []
  /\ In Stop finale
  /\ forall e, In e finale -> e = Stop \/ e = Print STOPPING \/ e = Print STOPPED.
Proof.
  unfold finales. simpl.
  intros [<- | [<- | [<- | [<- | []]]]]; simpl; repeat split; try tauto;
    intros e He; intuition (subst; auto).
Qed.

End Histories.

(** ** The calls of the start-up *)

Ltac script_cases cfg :=
  unfold setup_script, configure_script, auto_script, manual_script,
    manual_prelude, exposure_lines, summary_lines, launch_script;
  destruct (FULLY_AUTO_MODE cfg) eqn:?;
  [| destruct (exposure_time (MANUAL_SETTINGS cfg)) eqn:?]; simpl.

Section Scripts.

Variable cfg : configuration.
Variable dt : datetime.

Lemma setup_script_device :
  device_run Idle (setup_script cfg dt) = Some Started.
Proof. script_cases cfg; reflexivity. Qed.

Lemma setup_script_captures : captures (setup_script cfg dt) = [].
Proof. script_cases cfg; reflexivity. Qed.

Lemma setup_script_readings : readings (setup_script cfg dt) = [dt].
Proof. script_cases cfg; reflexivity. Qed.

Lemma setup_script_controls :
  controls_applied (setup_script cfg dt) =
  if FULLY_AUTO_MODE cfg then [] else [resolved_controls (MANUAL_SETTINGS cfg)].
Proof. script_cases cfg; reflexivity. Qed.

Lemma setup_script_after_makedirs (rest : list event) :
  after_makedirs (setup_script cfg dt ++ rest) =
  Print ("[INFO] Images will be saved in: " +:+ session_directory cfg dt) :: rest.
Proof. script_cases cfg; reflexivity. Qed.

Lemma setup_script_makedirs (name : string) (ok : bool) :
  In (Makedirs name ok) (setup_script cfg dt) ->
  name = session_directory cfg dt /\ ok = true.
Proof.
  script_cases cfg; intros H;
    repeat (destruct H as [H | H]; [try discriminate |]); try contradiction;
    injection H as <- <-; split; reflexivity.
Qed.


Lemma setup_script_has_start : In Start (setup_script cfg dt).
Proof. script_cases cfg; tauto. Qed.

(** In the manual branch the camera is started only after the one
    [set_controls], and the white-balance line is printed before it. *)
Lemma manual_before_start (h : list event) :
  FULLY_AUTO_MODE cfg = false ->
  h `prefix_of` setup_script cfg dt ->
  (In Start h -> controls_applied h = [resolved_controls (MANUAL_SETTINGS cfg)])
  /\ (controls_applied h <> [] ->
      In (Print (white_balance_line (MANUAL_SETTINGS cfg))) h).
Proof.
  intros Hman [rest Hrest]. revert Hrest.
  unfold setup_script, configure_script. rewrite Hman.
  unfold manual_script.
  set (pre := manual_prelude (MANUAL_SETTINGS cfg)).
  set (post := summary_lines (MANUAL_SETTINGS cfg) ++ launch_script cfg dt).
  assert (Hpre : controls_applied (Open :: pre) = [] /\ ~ In Start (Open :: pre)
                 /\ In (Print (white_balance_line (MANUAL_SETTINGS cfg))) (Open :: pre)).
  { unfold pre, manual_prelude, exposure_lines.
    destruct (exposure_time (MANUAL_SETTINGS cfg)); simpl;
      repeat split; try tauto; intros H;
      repeat (destruct H as [H | H]; [discriminate |]); contradiction. }
  destruct Hpre as (Hc & Hs & Hw).
  intros Hrest.
  assert (Heq : (Open :: pre) ++ SetControls (resolved_controls (MANUAL_SETTINGS cfg))
                  :: post = h ++ rest).
  { rewrite <- Hrest. unfold post. rewrite <- app_assoc. reflexivity. }
  clear Hrest.
  assert (Hfull : h `prefix_of` (Open :: pre) ++ SetControls
            (resolved_controls (MANUAL_SETTINGS cfg)) :: post)
    by (exists rest; exact Heq).
  destruct (prefix_weak_total h (Open :: pre) _ Hfull (prefix_app_r _ _ _ (reflexivity _)))
    as [[rest' Hh] | [more ->]].
  - (* the history ends before [set_controls] *)
    split.
    + intros Hin. exfalso. apply Hs. rewrite Hh. apply in_or_app. now left.
    + intros Hne. exfalso. apply Hne.
      rewrite Hh, controls_applied_app in Hc. now apply app_eq_nil in Hc as [-> _].
  - rewrite <- app_assoc in Heq. apply app_inv_head in Heq.
    destruct more as [|e more].
    + rewrite app_nil_r. split; [intros Hin; contradiction | intros Hne; contradiction].
    + (* the history contains it *)
      simpl in Heq. injection Heq as <- Heq. split.
      * intros _. rewrite controls_applied_app, Hc. simpl. f_equal.
        assert (Hpost : controls_applied post = []).
        { unfold post, summary_lines, launch_script.
          destruct (exposure_time (MANUAL_SETTINGS cfg)); reflexivity. }
        rewrite Heq, controls_applied_app in Hpost.
        now apply app_eq_nil in Hpost as [-> _].
      * intros _. apply in_or_app. now left.
Qed.

End Scripts.

(** ** Runs *)

Section Runs.

Variable cfg : configuration.
Variable env : environment.
Variable fs : gset string.

Lemma setup_outcome :
  exists r w1,
    setup cfg env (boot fs) = (r, w1) /\
    match r with
    | Ok d =>
        d = session_directory cfg (session_start cfg env)
        /\ history w1 = setup_script cfg (session_start cfg env)
    | Raise x =>
        history w1 `prefix_of` setup_script cfg (session_start cfg env)
        /\ exists pre e, history w1 = pre ++ [e] /\ fault env (length pre) = Some x
    | Running => False
    end.
Proof.
  destruct (follows_setup env cfg (boot fs) eq_refl)
    as (r & w1 & es & Hrun & Hlog & Hr).
  exists r, w1. split; [assumption |].
  assert (Hh : history w1 = es).
  { unfold history. rewrite Hlog. simpl. now rewrite app_nil_r, rev_involutive. }
  rewrite Hh. destruct r as [d|x|]; [| | assumption].
  - destruct Hr as [-> ->]. split; reflexivity.
  - exact Hr.
Qed.

Lemma run_shape (fuel : nat) (r : outcome unit) (w : world) :
  run cfg fuel env fs = (r, w) ->
  let d := session_directory cfg (session_start cfg env) in
  (exists x w1,
      r = Raise x /\ setup cfg env (boot fs) = (Raise x, w1) /\
      history w `prefix_of` setup_script cfg (session_start cfg env))
  \/
  (exists w1 body finale,
      setup cfg env (boot fs) = (Ok d, w1) /\
      history w = setup_script cfg (session_start cfg env)
                  ++ Print STARTING :: body ++ finale /\
      loop_body d body /\
      match r with
      | Running => finale = []
      | _ => In finale finales
      end).
Proof.
  intros Hrun d. unfold run, main, bind in Hrun.
  destruct setup_outcome as (r1 & w1 & Hsetup & Hr1).
  rewrite Hsetup in Hrun. destruct r1 as [d'|x|]; [| | contradiction].
  - destruct Hr1 as [-> Hh]. right.
    apply capture_session_spec in Hrun as (body & finale & Hlog & Hbody & Hr).
    exists w1, body, finale. split; [assumption |]. split; [| now split].
    unfold history in *. rewrite Hlog, rev_app_distr, rev_involutive, Hh.
    reflexivity.
  - injection Hrun as <- <-. left. exists x, w1. tauto.
Qed.

(** Every run obeys the life cycle of the handle, and one that leaves the
    guarded block has stopped the device. *)
Lemma run_lifecycle (fuel : nat) (r : outcome unit) (w : world) :
  run cfg fuel env fs = (r, w) ->
  exists s,
    device_run Idle (history w) = Some s /\
    ((exists d w1, setup cfg env (boot fs) = (Ok d, w1)) ->
     exited r = true -> s = Stopped).
Proof.
  intros Hrun. apply run_shape in Hrun.
  destruct Hrun as [(x & w1 & -> & Hsetup & Hpre)
                   | (w1 & body & finale & Hsetup & Hh & [Hall _] & Hr)].
  - destruct (device_run_prefix Idle _ _ Hpre) as [s Hs].
    { rewrite setup_script_device. eauto. }
    exists s. split; [assumption |].
    intros (d & w2 & Hok). rewrite Hsetup in Hok. discriminate.
  - rewrite Hh, device_run_app, setup_script_device.
    simpl. change (Print STARTING :: body ++ finale)
      with ([Print STARTING] ++ body ++ finale).
    rewrite !device_run_app. simpl. rewrite (loop_events_device body Hall).
    destruct r as [u|x|].
    + rewrite (finale_device finale Hr). eauto.
    + rewrite (finale_device finale Hr). eauto.
    + subst finale. exists Started. split; [reflexivity |]. discriminate.
Qed.

End Runs.

(** * The claims *)

(** ** C1: the device is stopped on every way out *)

(** C1, as worded, fails: with the shipped settings, when
    [os.makedirs] raises (the tenth call, after [picam.start()]), the
    exception leaves [main] and [picam.stop()] is never called, because
    [create_output_directory] is called before the [try]. *)
Lemma C1_makedirs_fault_skips_stop :
  ~ stop_on_every_exit_from_started shipped.
Proof.
  intros H.
  specialize (H 1%nat (raising 9 (Exception "PermissionError")) ∅
                (Raise (Exception "PermissionError"))
                (snd (run shipped 1 (raising 9 (Exception "PermissionError")) ∅))).
  assert (Hstop : In Stop (history (snd (run shipped 1
                     (raising 9 (Exception "PermissionError")) ∅)))).
  { apply H.
    - vm_compute. reflexivity.
    - reflexivity.
    - vm_compute. tauto. }
  vm_compute in Hstop.
  repeat (destruct Hstop as [Hstop | Hstop]; [discriminate |]). contradiction.
Qed.

(** C1, amended: for every run that gets into the guarded block (the
    start-up, output directory included, has completed), the device stop is
    called before the process ends, on every way out of the block: an
    operator interrupt or any exception raised in the loop.  It is called
    once, after the start. *)
Theorem C1_stop_on_every_exit_from_the_loop
    (cfg : configuration) (fuel : nat) (env : environment) (fs : gset string)
    (d : string) (w1 : world) (r : outcome unit) (w : world) :
  setup cfg env (boot fs) = (Ok d, w1) ->
  run cfg fuel env fs = (r, w) ->
  exited r = true ->
  (exists before after,
      history w = before ++ Stop :: after /\ In Start before)
  /\ count is_stop (history w) = 1%nat.
Proof.
  intros Hsetup Hrun Hexit. split.
  - apply run_shape in Hrun.
    destruct Hrun as [(x & w2 & _ & Hfail & _)
                     | (w2 & body & finale & _ & Hh & _ & Hr)].
    { rewrite Hsetup in Hfail. discriminate. }
    assert (Hfin : In finale finales) by (destruct r; [exact Hr | exact Hr | discriminate]).
    destruct (finale_plain finale Hfin) as (_ & _ & _ & Hstop & _).
    apply in_split in Hstop as (f1 & f2 & ->).
    exists (setup_script cfg (session_start cfg env) ++ Print STARTING :: body ++ f1), f2.
    split.
    + rewrite Hh, <- (app_assoc (setup_script _ _)), <- app_comm_cons, <- app_assoc.
      reflexivity.
    + apply in_or_app. left. apply setup_script_has_start.
  - destruct (run_lifecycle cfg env fs fuel r w Hrun) as (s & Hs & Hstopped).
    rewrite Hstopped in Hs by eauto.
    now destruct (device_run_counts _ _ _ Hs) as (_ & _ & _ & _ & ->).
Qed.

Lemma C1_witness :
  (exists before after,
      history (snd (run shipped 2 (raising 14 KeyboardInterrupt) ∅))
      = before ++ Stop :: after /\ In Start before)
  /\ count is_stop (history (snd (run shipped 2 (raising 14 KeyboardInterrupt) ∅)))
     = 1%nat.
Proof.
  apply (C1_stop_on_every_exit_from_the_loop shipped 2
           (raising 14 KeyboardInterrupt) ∅
           (session_directory shipped t_101500)
           (snd (setup shipped (raising 14 KeyboardInterrupt) (boot ∅)))
           (Ok tt)).
  - vm_compute. reflexivity.
  - vm_compute. reflexivity.
  - reflexivity.
Defined.

(** ** C7: an operator interrupt ends the run in good order *)

(** C7: take a run whose start-up completed and in which the operator
    interrupt arrives at the [k]-th call, which lies in the guarded block,
    while nothing else raises there (the sleep length is not negative, so
    [time.sleep] does not raise either).  Observed for more than [k] turns,
    the run has ended: [main] returns normally, so the interrupt did not
    leave the handler; after the interrupted call come exactly the shutdown
    notice, one [stop] and the closing notice, hence no further capture; and
    the whole run holds one [stop]. *)
Theorem C7_interrupt_stops_in_order
    (cfg : configuration) (fuel : nat) (env : environment) (fs : gset string)
    (d : string) (w1 : world) (k : nat) :
  setup cfg env (boot fs) = (Ok d, w1) ->
  (length (log w1) <= k)%nat ->
  fault env k = Some KeyboardInterrupt ->
  (forall i, (length (log w1) <= i)%nat -> i <> k -> fault env i = None) ->
  0 <= INTERVAL_SECONDS cfg ->
  (k < fuel)%nat ->
  exists w before,
    run cfg fuel env fs = (Ok tt, w) /\
    history w = before ++ [Print STOPPING; Stop; Print STOPPED] /\
    length before = S k /\
    captures (drop (S k) (history w)) = [] /\
    count is_stop (history w) = 1%nat.
Proof.
  intros Hsetup Hk Hint Hcalm Hpos Hfuel.
  destruct (capture_session_interrupted cfg d env fuel w1 k Hk Hint Hcalm Hpos Hfuel)
    as (w & body & Hrun & Hlog & _ & Hlen).
  assert (Hmain : run cfg fuel env fs = (Ok tt, w)).
  { unfold run, main, bind. rewrite Hsetup. exact Hrun. }
  exists w, (history w1 ++ Print STARTING :: body).
  assert (Hh : history w = (history w1 ++ Print STARTING :: body)
                           ++ [Print STOPPING; Stop; Print STOPPED]).
  { unfold history. rewrite Hlog, rev_app_distr, rev_involutive.
    rewrite <- app_assoc. reflexivity. }
  assert (Hbefore : length (history w1 ++ Print STARTING :: body) = S k).
  { rewrite length_app. unfold history. rewrite length_rev. simpl. lia. }
  split; [assumption |]. split; [assumption |]. split; [assumption |]. split.
  - rewrite Hh, <- Hbefore, drop_app_length. reflexivity.
  - destruct (run_lifecycle cfg env fs fuel _ _ Hmain) as (s & Hs & Hstopped).
    rewrite Hstopped in Hs by eauto.
    now destruct (device_run_counts _ _ _ Hs) as (_ & _ & _ & _ & ->).
Qed.

Lemma C7_witness :
  exists w before,
    run shipped 15 (raising 14 KeyboardInterrupt) ∅ = (Ok tt, w) /\
    history w = before ++ [Print STOPPING; Stop; Print STOPPED] /\
    length before = 15%nat /\
    captures (drop 15 (history w)) = [] /\
    count is_stop (history w) = 1%nat.
Proof.
  apply (C7_interrupt_stops_in_order shipped 15 (raising 14 KeyboardInterrupt) ∅
           (session_directory shipped t_101500)
           (snd (setup shipped (raising 14 KeyboardInterrupt) (boot ∅))) 14).
  - vm_compute. reflexivity.
  - vm_compute. lia.
  - reflexivity.
  - intros i _ Hi. simpl. destruct (Nat.eqb_spec i 14); [contradiction | reflexivity].
  - simpl. lia.
  - lia.
Defined.

(** ** C9: the life cycle of the device handle *)

(** C9, as worded, fails: with the shipped settings, an operator interrupt
    that arrives while [create_output_directory] reads the clock (the ninth
    call, after [picam.start()] and before the [try]) ends the process with
    the device opened, configured and started once, and never stopped. *)
Lemma C9_interrupt_before_the_loop_never_stops :
  ~ lifecycle_exactly_once shipped.
Proof.
  intros H.
  destruct (H 1%nat (raising 8 KeyboardInterrupt) ∅ (Raise KeyboardInterrupt)
              (snd (run shipped 1 (raising 8 KeyboardInterrupt) ∅)))
    as (_ & _ & _ & Hstop & _).
  - vm_compute. reflexivity.
  - reflexivity.
  - vm_compute in Hstop. discriminate.
Qed.

(** C9, amended: in every run the calls on the handle obey its life cycle at
    every point (the handle is opened first and once, configured once and
    only before it is started, started at most once and only after it was
    configured, stopped at most once and only after it was started; nothing
    is opened or configured while it is started); and every run that gets
    into the guarded block and ends has opened, configured, started and
    stopped the handle exactly once each, in that order. *)
Theorem C9_lifecycle
    (cfg : configuration) (fuel : nat) (env : environment) (fs : gset string)
    (r : outcome unit) (w : world) :
  run cfg fuel env fs = (r, w) ->
  (exists s, device_run Idle (history w) = Some s) /\
  (count is_open (history w) <= 1)%nat /\
  (count is_configure (history w) <= 1)%nat /\
  (count is_start (history w) <= 1)%nat /\
  (count is_stop (history w) <= 1)%nat /\
  ((exists d w1, setup cfg env (boot fs) = (Ok d, w1)) ->
   exited r = true ->
   device_run Idle (history w) = Some Stopped /\
   count is_open (history w) = 1%nat /\
   count is_configure (history w) = 1%nat /\
   count is_start (history w) = 1%nat /\
   count is_stop (history w) = 1%nat).
Proof.
  intros Hrun.
  destruct (run_lifecycle cfg env fs fuel r w Hrun) as (s & Hs & Hstopped).
  destruct (device_run_counts _ _ _ Hs) as (_ & Ho & Hc & Hst & Hsp).
  split; [eauto |].
  rewrite Ho, Hc, Hst, Hsp.
  do 4 (split; [destruct s; unfold passed; simpl; lia |]).
  intros Hsetup Hexit. rewrite (Hstopped Hsetup Hexit) in *.
  repeat split; [assumption | reflexivity ..].
Qed.

Lemma C9_witness :
  let w := snd (run shipped 2 (raising 17 (Exception "OSError")) ∅) in
  (exists s, device_run Idle (history w) = Some s) /\
  (count is_open (history w) <= 1)%nat /\
  (count is_configure (history w) <= 1)%nat /\
  (count is_start (history w) <= 1)%nat /\
  (count is_stop (history w) <= 1)%nat /\
  ((exists d w1, setup shipped (raising 17 (Exception "OSError")) (boot ∅) = (Ok d, w1)) ->
   exited (Raise (Exception "OSError") : outcome unit) = true ->
   device_run Idle (history w) = Some Stopped /\
   count is_open (history w) = 1%nat /\
   count is_configure (history w) = 1%nat /\
   count is_start (history w) = 1%nat /\
   count is_stop (history w) = 1%nat).
Proof.
  apply (C9_lifecycle shipped 2 (raising 17 (Exception "OSError")) ∅
           (Raise (Exception "OSError"))).
  vm_compute. reflexivity.
Defined.

(** ** C8: the automatic branch passes the resolution only *)



(** ** The manual branch: the resolved control set *)

Ltac lookups :=
  repeat first [ rewrite lookup_insert_eq
               | rewrite lookup_insert_ne by discriminate ];
  rewrite ?lookup_empty.

Section Controls.

Variable s : manual_settings.

Lemma resolved_quality :
  resolved_controls s !! "Brightness" = Some (VInt (brightness s)) /\
  resolved_controls s !! "Contrast" = Some (VInt (contrast s)) /\
  resolved_controls s !! "Saturation" = Some (VInt (saturation s)) /\
  resolved_controls s !! "Sharpness" = Some (VInt (sharpness s)).
Proof.
  unfold resolved_controls, white_balance_controls, exposure_controls,
    quality_controls.
  destruct (exposure_time s);
    destruct (awb_of_string (Str.lower (white_balance s))) as [[]|];
    repeat split; lookups; reflexivity.
Qed.

Lemma resolved_exposure :
  resolved_controls s !! "AeEnable"
    = Some (VBool match exposure_time s with Some _ => false | None => true end) /\
  resolved_controls s !! "ExposureTime" = VInt <$> exposure_time s /\
  resolved_controls s !! "AnalogueGain"
    = match exposure_time s with Some _ => Some (VFloat 1) | None => None end.
Proof.
  unfold resolved_controls, white_balance_controls, exposure_controls,
    quality_controls.
  destruct (exposure_time s);
    destruct (awb_of_string (Str.lower (white_balance s))) as [[]|];
    repeat split; lookups; reflexivity.
Qed.

Lemma resolved_white_balance :
  resolved_controls s !! "AwbEnable"
    = Some (VBool match awb_of_string (Str.lower (white_balance s)) with
                  | Some Auto | None => true
                  | Some _ => false
                  end) /\
  resolved_controls s !! "AwbMode"
    = match awb_of_string (Str.lower (white_balance s)) with
      | Some Auto | None => None
      | Some mode => Some (VAwbMode mode)
      end.
Proof.
  unfold resolved_controls, white_balance_controls, exposure_controls,
    quality_controls.
  destruct (exposure_time s);
    destruct (awb_of_string (Str.lower (white_balance s))) as [[]|];
    repeat split; lookups; reflexivity.
Qed.

Lemma resolved_invariant : structural_invariant (resolved_controls s).
Proof.
  destruct resolved_quality as (Hb & Hc & Hs & Hh).
  destruct resolved_exposure as (Hae & Het & Hag).
  destruct resolved_white_balance as (Hwe & Hwm).
  unfold structural_invariant.
  rewrite Hb, Hc, Hs, Hh, Hae, Het, Hag, Hwe, Hwm.
  destruct (exposure_time s);
    destruct (awb_of_string (Str.lower (white_balance s))) as [[]|];
    simpl; repeat split; eauto;
    try (intros [? [=]]); try discriminate.
Qed.

Lemma fixed_mode (wb : string) (m : AwbModeEnum) :
  In (wb, m) FIXED_MODES -> awb_of_string wb = Some m /\ m <> Auto.
Proof.
  unfold FIXED_MODES. simpl. intros H.
  repeat (destruct H as [H | H];
          [injection H as <- <-; split; [reflexivity | discriminate] |]).
  contradiction.
Qed.

Lemma unknown_name (wb : string) :
  ~ In wb WHITE_BALANCE_NAMES -> awb_of_string wb = None.
Proof.
  unfold WHITE_BALANCE_NAMES, awb_of_string. simpl. intros Hout.
  repeat match goal with
         | |- context [String.eqb wb ?k] =>
             destruct (String.eqb_spec wb k); [exfalso; apply Hout; intuition congruence |]
         end.
  reflexivity.
Qed.

End Controls.

Section ManualRuns.

Variable cfg : configuration.
Variable env : environment.
Variable fs : gset string.
Hypothesis manual : FULLY_AUTO_MODE cfg = false.

(** The manual branch calls [set_controls] at most once, with the
    resolved control set, before the camera is started and after the
    white-balance line was printed. *)
Lemma manual_controls (fuel : nat) (r : outcome unit) (w : world) :
  run cfg fuel env fs = (r, w) ->
  (controls_applied (history w) = []
   \/ controls_applied (history w) = [resolved_controls (MANUAL_SETTINGS cfg)])
  /\ (In Start (history w) ->
      controls_applied (history w) = [resolved_controls (MANUAL_SETTINGS cfg)])
  /\ (controls_applied (history w) <> [] ->
      In (Print (white_balance_line (MANUAL_SETTINGS cfg))) (history w)).
Proof.
  intros Hrun. apply run_shape in Hrun.
  pose proof (setup_script_controls cfg (session_start cfg env)) as Hc.
  rewrite manual in Hc.
  destruct Hrun as [(x & w1 & _ & _ & Hpre)
                   | (w1 & body & finale & _ & Hh & [Hbody _] & Hr)].
  - destruct (manual_before_start cfg _ _ manual Hpre) as [Hs Hw].
    split; [| split; assumption].
    destruct Hpre as [rest Hrest]. rewrite Hrest, controls_applied_app in Hc.
    destruct (controls_applied (history w)) as [|c l]; [now left | right].
    injection Hc as -> Hc. now apply app_eq_nil in Hc as [-> _].
  - assert (Happlied : controls_applied (history w)
                       = [resolved_controls (MANUAL_SETTINGS cfg)]).
    { rewrite Hh, controls_applied_app, Hc. simpl.
      rewrite controls_applied_app, (loop_events_controls body Hbody). simpl.
      destruct r; [| | now subst finale];
        now destruct (finale_plain finale Hr) as (_ & _ & -> & _). }
    split; [now right |]. split; [intros _; assumption |].
    intros _. rewrite Hh. apply in_or_app. left.
    apply (manual_before_start cfg (session_start cfg env)
             (setup_script cfg (session_start cfg env)) manual (reflexivity _)).
    rewrite Hc. discriminate.
Qed.

(** Start-up raises nothing of its own. *)
Lemma setup_completes :
  calm env 0 (length (setup_script cfg (session_start cfg env))) ->
  exists w1,
    setup cfg env (boot fs)
    = (Ok (session_directory cfg (session_start cfg env)), w1).
Proof.
  intros Hcalm. destruct (setup_outcome cfg env fs) as (r & w1 & Hrun & Hr).
  destruct r as [d|x|]; [| | contradiction].
  - destruct Hr as [-> _]. now exists w1.
  - destruct Hr as [Hpre (pre & e & Hh & Hx)]. exfalso.
    apply prefix_length in Hpre. rewrite Hh, length_app in Hpre.
    cbn [length] in Hpre.
    rewrite Hcalm in Hx; [discriminate | lia].
Qed.

End ManualRuns.

(** ** C2: white balance *)

(** C2: in manual mode, whatever the configured white-balance string, a run
    that starts the camera has handed the driver one control set, and every
    control set handed over has, by the lower-cased string:
    - for "auto", [AwbEnable] true and no [AwbMode];
    - for "incandescent", "fluorescent", "daylight" and "cloudy", [AwbEnable]
      false and [AwbMode] the member [AWB_MODE_MAP] gives the string;
    - for any other string, [AwbEnable] true, no [AwbMode], and the warning
      line on the console.
    No string raises an error: when the environment raises nothing,
    start-up returns. *)
Theorem C2_white_balance_resolution
    (cfg : configuration) (fuel : nat) (env : environment) (fs : gset string)
    (r : outcome unit) (w : world) :
  FULLY_AUTO_MODE cfg = false ->
  run cfg fuel env fs = (r, w) ->
  let wb := Str.lower (white_balance (MANUAL_SETTINGS cfg)) in
  (In Start (history w) -> exists c, controls_applied (history w) = [c]) /\
  (forall c, In c (controls_applied (history w)) ->
     (wb = "auto"%string ->
      c !! "AwbEnable" = Some (VBool true) /\ c !! "AwbMode" = None) /\
     (forall m, In (wb, m) FIXED_MODES ->
      AWB_MODE_MAP !! wb = Some m /\
      c !! "AwbEnable" = Some (VBool false) /\
      c !! "AwbMode" = Some (VAwbMode m)) /\
     (~ In wb WHITE_BALANCE_NAMES ->
      c !! "AwbEnable" = Some (VBool true) /\ c !! "AwbMode" = None /\
      In (Print (UNRECOGNIZED wb)) (history w))) /\
  ((forall i, fault env i = None) ->
   exists d w1, setup cfg env (boot fs) = (Ok d, w1)).
Proof.
  intros Hman Hrun wb.
  destruct (manual_controls cfg env fs Hman fuel r w Hrun) as (Hone & Hstart & Hline).
  split; [eauto |]. split.
  - intros c Hc.
    assert (Hne : controls_applied (history w) <> []) by (intros E; now rewrite E in Hc).
    specialize (Hline Hne).
    destruct Hone as [E | E]; rewrite E in Hc; [contradiction |].
    destruct Hc as [<- | []].
    destruct (resolved_white_balance (MANUAL_SETTINGS cfg)) as [He Hm].
    fold wb in He, Hm. unfold white_balance_line in Hline. fold wb in Hline.
    repeat split.
    + rewrite He. now rewrite (proj2 (awb_of_string_auto wb) H).
    + rewrite Hm. now rewrite (proj2 (awb_of_string_auto wb) H).
    + rewrite awb_lookup. now apply fixed_mode.
    + rewrite He. destruct (fixed_mode wb m H) as [-> Hna]. now destruct m.
    + rewrite Hm. destruct (fixed_mode wb m H) as [-> Hna]. now destruct m.
    + rewrite He. now rewrite (unknown_name wb H).
    + rewrite Hm. now rewrite (unknown_name wb H).
    + rewrite (unknown_name wb H) in Hline. exact Hline.
  - intros Hquiet.
    destruct (setup_completes cfg env fs) as [w1 Hw1]; [intros i _; apply Hquiet |].
    eauto.
Qed.

Lemma C2_witness :
  let w := snd (run bogus_manual 1 quiet ∅) in
  exists c, controls_applied (history w) = [c] /\
    c !! "AwbEnable" = Some (VBool true) /\ c !! "AwbMode" = None /\
    In (Print (UNRECOGNIZED "bogus")) (history w).
Proof.
  intros w.
  destruct (C2_white_balance_resolution bogus_manual 1 quiet ∅ Running w)
    as (Hstart & Hall & _).
  - reflexivity.
  - vm_compute. reflexivity.
  - destruct Hstart as [c Hc].
    + vm_compute. tauto.
    + exists c. split; [exact Hc |].
      apply (Hall c); [rewrite Hc; now left |].
      simpl. intuition discriminate.
Defined.

(** ** C3: exposure *)



(** ** C10: the shape of the control set *)

Section HandOver.

Variable cfg : configuration.
Variable env : environment.
Variable fs : gset string.
Hypothesis manual : FULLY_AUTO_MODE cfg = false.

(** A part of a history that stops short of a call, or goes past it. *)
Lemma prefix_split {X} (h a : list X) (x : X) (b : list X) :
  h `prefix_of` a ++ x :: b ->
  h `prefix_of` a \/ exists b', h = a ++ x :: b' /\ b' `prefix_of` b.
Proof.
  revert h. induction a as [|y a IH]; intros [|z h] [rest Heq]; simpl in Heq.
  - left. apply prefix_nil.
  - injection Heq as <- Heq. right. exists h. split; [reflexivity |].
    now exists rest.
  - left. apply prefix_nil.
  - injection Heq as <- Heq.
    destruct (IH h) as [Hp | (b' & -> & Hb')]; [now exists rest | |].
    + left. now apply prefix_cons.
    + right. exists b'. split; [reflexivity | assumption].
Qed.

Lemma controls_applied_prefix (h l : list event) :
  h `prefix_of` l -> controls_applied l = [] -> controls_applied h = [].
Proof.
  intros [rest ->] H. rewrite controls_applied_app in H.
  now apply app_eq_nil in H as [-> _].
Qed.

(** A run that start-up ended is start-up's own world, and the call that
    raised is its last. *)
Lemma run_ended_in_setup (fuel : nat) (r : outcome unit) (w : world)
    (x : exn) (w1 : world) :
  run cfg fuel env fs = (r, w) ->
  setup cfg env (boot fs) = (Raise x, w1) ->
  exists pre e, history w = pre ++ [e] /\ fault env (length pre) = Some x.
Proof.
  intros Hrun Hsetup. unfold run, main, bind in Hrun. rewrite Hsetup in Hrun.
  injection Hrun as <- <-.
  destruct (setup_outcome cfg env fs) as (r' & w' & Hsetup' & Hr).
  rewrite Hsetup in Hsetup'. injection Hsetup' as <- <-.
  now destruct Hr as [_ Hr].
Qed.

(** The manual branch hands the resolved control set over whole: once the
    environment has let through the calls up to [set_controls], the driver
    has got it; and a history that holds a [set_controls] begins with the
    opening of the device, the configuration, the console lines of the
    exposure and white-balance decisions and that one call, in this order,
    and holds no other. *)
Lemma manual_hand_over (fuel : nat) (r : outcome unit) (w : world) :
  run cfg fuel env fs = (r, w) ->
  let s := MANUAL_SETTINGS cfg in
  (calm env 0 (length (manual_prelude s) + 2) ->
   controls_applied (history w) = [resolved_controls s]) /\
  (controls_applied (history w) <> [] ->
   exists post,
     history w = (Open :: manual_prelude s)
                 ++ SetControls (resolved_controls s) :: post /\
     controls_applied post = []).
Proof.
  intros Hrun s.
  set (dt := session_start cfg env).
  set (A := Open :: manual_prelude s).
  set (B := summary_lines s ++ launch_script cfg dt).
  assert (Hscript : setup_script cfg dt = A ++ SetControls (resolved_controls s) :: B).
  { unfold setup_script, configure_script. rewrite manual.
    unfold manual_script, A, B. fold s. cbn [app].
    rewrite <- app_assoc. reflexivity. }
  assert (HA : controls_applied A = []).
  { unfold A, manual_prelude, exposure_lines.
    destruct (exposure_time s); reflexivity. }
  assert (HB : controls_applied B = []).
  { unfold B, summary_lines, launch_script.
    destruct (exposure_time s); reflexivity. }
  assert (Hgot : forall post,
            controls_applied post = [] ->
            history w = A ++ SetControls (resolved_controls s) :: post ->
            (calm env 0 (length (manual_prelude s) + 2) ->
             controls_applied (history w) = [resolved_controls s]) /\
            (controls_applied (history w) <> [] ->
             exists post',
               history w = A ++ SetControls (resolved_controls s) :: post' /\
               controls_applied post' = [])).
  { intros post Hpost Hh. split.
    - intros _. rewrite Hh, controls_applied_app, HA. cbn [controls_applied app].
      now rewrite Hpost.
    - intros _. now exists post. }
  pose proof Hrun as Hshape. apply run_shape in Hshape. fold dt in Hshape.
  destruct Hshape as [(x & w1 & _ & Hsetup & Hpre)
                     | (w1 & body & finale & _ & Hh & [Hbody _] & Hr)].
  - rewrite Hscript in Hpre.
    destruct (prefix_split _ _ _ _ Hpre) as [Hshort | (b' & Hh & Hb')].
    + split.
      * intros Hcalm. exfalso.
        destruct (run_ended_in_setup fuel r w x w1 Hrun Hsetup)
          as (pre & e & Hlast & Hfault).
        apply prefix_length in Hshort. rewrite Hlast, length_app in Hshort.
        unfold A in Hshort. cbn [length] in Hshort.
        rewrite Hcalm in Hfault; [discriminate | lia].
      * intros Hne. exfalso. apply Hne.
        now apply (controls_applied_prefix _ A).
    + apply (Hgot b'); [| exact Hh].
      now apply (controls_applied_prefix _ B).
  - apply (Hgot (B ++ Print STARTING :: body ++ finale)).
    + rewrite controls_applied_app, HB. cbn [controls_applied app].
      rewrite controls_applied_app, (loop_events_controls body Hbody).
      destruct r; [| | now subst finale];
        now destruct (finale_plain finale Hr) as (_ & _ & -> & _).
    + rewrite Hh, Hscript, <- app_assoc. reflexivity.
Qed.

End HandOver.

(** C10: in manual mode every control set handed to the driver has the four
    quality keys and [AeEnable]; has [ExposureTime] and [AnalogueGain]
    exactly when [AeEnable] is false; has [AwbEnable]; and has [AwbMode]
    exactly when [AwbEnable] is false.  The set is built and handed over:
    once the environment has let through the calls up to [set_controls]
    (the opening of the device, the configuration, the console lines of the
    two decisions and [set_controls] itself), the driver has got one control
    set.  It is handed over whole, after both decisions: a run calls
    [set_controls] at most once, exactly once if it starts the camera, and a
    history that holds the call begins with the opening of the device, the
    configuration, the lines of the exposure and of the white-balance
    decision and then that call, with no other after it. *)
Theorem C10_control_set_shape
    (cfg : configuration) (fuel : nat) (env : environment) (fs : gset string)
    (r : outcome unit) (w : world) :
  FULLY_AUTO_MODE cfg = false ->
  run cfg fuel env fs = (r, w) ->
  let s := MANUAL_SETTINGS cfg in
  (forall c, In c (controls_applied (history w)) -> structural_invariant c) /\
  (length (controls_applied (history w)) <= 1)%nat /\
  (In Start (history w) -> length (controls_applied (history w)) = 1%nat) /\
  (calm env 0 (length (manual_prelude s) + 2) ->
   exists c, controls_applied (history w) = [c]) /\
  (forall c, In c (controls_applied (history w)) ->
   exists post,
     history w = Open :: manual_prelude s ++ SetControls c :: post /\
     controls_applied post = []).
Proof.
  intros Hman Hrun s.
  destruct (manual_controls cfg env fs Hman fuel r w Hrun) as (Hone & Hstart & _).
  destruct (manual_hand_over cfg env fs Hman fuel r w Hrun) as [Hgot Hwhole].
  fold s in Hgot, Hwhole.
  split; [| split; [| split; [| split]]].
  - intros c Hc. destruct Hone as [E | E]; rewrite E in Hc; [contradiction |].
    destruct Hc as [<- | []]. apply resolved_invariant.
  - destruct Hone as [-> | ->]; simpl; lia.
  - intros Hs. now rewrite (Hstart Hs).
  - intros Hcalm. eexists. now apply Hgot.
  - intros c Hc.
    assert (Hne : controls_applied (history w) <> [])
      by (intros E; now rewrite E in Hc).
    destruct Hone as [E | E]; [contradiction |].
    rewrite E in Hc. destruct Hc as [<- | []].
    exact (Hwhole Hne).
Qed.

Lemma C10_witness :
  let w := snd (run bogus_manual 1 quiet ∅) in
  exists c,
    controls_applied (history w) = [c] /\ structural_invariant c /\
    exists post,
      history w = Open :: manual_prelude (MANUAL_SETTINGS bogus_manual)
                  ++ SetControls c :: post /\
      controls_applied post = [].
Proof.
  intros w.
  destruct (C10_control_set_shape bogus_manual 1 quiet ∅ Running w)
    as (Hinv & _ & _ & Hgot & Hwhole).
  - reflexivity.
  - vm_compute. reflexivity.
  - destruct Hgot as [c Hc]; [intros i _; reflexivity |].
    assert (Hin : In c (controls_applied (history w))) by (rewrite Hc; now left).
    exists c. split; [exact Hc |]. split; [now apply Hinv | now apply Hwhole].
Defined.

(** ** C4: the session directory *)

Section Directories.




End Directories.




(** ** C5: the names of the directory and of the images *)

Section Names.

Local Arguments String.append !_ _ / : simpl nomatch.





End Names.



(** ** C6: image names do not collide when the turns are a second apart *)

Section Uniqueness.

(** In a spaced list every later reading is more than a second after an
    earlier one. *)
Lemma spaced_later (a : datetime) (l : list datetime) :
  spaced (a :: l) ->
  spaced l /\ Forall (fun b => micros b - micros a > 1000000) l.
Proof.
  revert a. induction l as [|b l IH]; intros a Hs.
  - split; [exact I | constructor].
  - destruct Hs as [Hab Hs]. split; [exact Hs |].
    destruct (IH b Hs) as [_ Hall]. constructor; [exact Hab |].
    unfold later_by_more_than_a_second in Hab.
    eapply List.Forall_impl; [| exact Hall]. simpl. intros c Hc. lia.
Qed.

Lemma spaced_nodup {B} (f : datetime -> B) (l : list datetime) :
  (forall a b, f a = f b -> same_second a b) ->
  spaced l -> NoDup (map f l).
Proof.
  intros Hf. induction l as [|a l IH]; intros Hs; [constructor |].
  destruct (spaced_later a l Hs) as [Hl Hall].
  simpl. apply NoDup_cons. split; [| now apply IH].
  intros Hin. apply list_elem_of_In, in_map_iff in Hin as (b & Hb & Hin).
  rewrite List.Forall_forall in Hall. specialize (Hall b Hin).
  symmetry in Hb. apply Hf, same_second_micros in Hb. lia.
Qed.

Lemma prefix_is_take {A} (l1 l2 : list A) :
  l1 `prefix_of` l2 -> l1 = take (length l1) l2.
Proof. intros [k ->]. now rewrite take_app_length. Qed.

Lemma lookup_map {A B} (f : A -> B) (l : list A) (i : nat) (y : B) :
  map f l !! i = Some y -> exists x, l !! i = Some x /\ y = f x.
Proof.
  revert i. induction l as [|a l IH]; intros [|i] H; simpl in H; try discriminate.
  - injection H as <-. now exists a.
  - now apply IH.
Qed.

End Uniqueness.

(** C6, as worded, fails: turns that each last more than a second do not
    keep the names apart, because the names are taken from naive local time.
    With the shipped settings, in the night in which daylight saving time
    ends, three turns of half an hour each read 02:15, 02:45 and, the clock
    having been set back an hour, 02:15 again: the third image is captured
    to the path of the first. *)
Lemma C6_clock_set_back_repeats_a_name :
  ~ names_unique_when_turns_exceed_a_second shipped.
Proof.
  intros H.
  specialize (H 3%nat set_back ∅ Running (snd (run shipped 3 set_back ∅))
                steady_instant offset_in_force).
  assert (Hnodup : NoDup (captures (history (snd (run shipped 3 set_back ∅))))).
  { apply H.
    - vm_compute. reflexivity.
    - intros i dt Hin. vm_compute in Hin.
      repeat (destruct Hin as [[= <- <-] | Hin]; [vm_compute; reflexivity |]).
      contradiction.
    - intros i. unfold steady_instant. lia.
    - intros i. unfold steady_instant. lia. }
  apply (bool_decide_pack _) in Hnodup. vm_compute in Hnodup. exact Hnodup.
Qed.

(** C6, amended: in every run in which each reading of the clock by the loop
    is more than a second after the one before it, the captured paths are
    pairwise different, and so are the file names in them: they are the
    session directory joined with the names [strftime] gives the readings,
    which are pairwise different and, when no reading is of a year before
    1000, of the image layout.  Nothing else keeps them apart: whatever the
    timing, two turns whose readings lie in one second capture to the same
    path. *)
Theorem C6_names_unique_when_spaced
    (cfg : configuration) (fuel : nat) (env : environment) (fs : gset string)
    (r : outcome unit) (w : world) :
  run cfg fuel env fs = (r, w) ->
  let d := session_directory cfg (session_start cfg env) in
  (spaced (session_stamps (history w)) ->
   NoDup (captures (history w)) /\
   exists names,
     captures (history w) = map (path_join d) names /\
     NoDup names /\
     names `prefix_of` map image_name (session_stamps (history w)) /\
     ((forall dt, In dt (session_stamps (history w)) -> 1000 <= year dt) ->
      Forall (fun F => matches IMAGE_LAYOUT F = true) names)) /\
  (forall i j a b p q,
     session_stamps (history w) !! i = Some a ->
     session_stamps (history w) !! j = Some b ->
     captures (history w) !! i = Some p ->
     captures (history w) !! j = Some q ->
     same_second a b -> p = q).
Proof.
  intros Hrun d. apply run_shape in Hrun. fold d in Hrun.
  destruct Hrun as [(x & w1 & _ & _ & [rest Hpre])
                   | (w1 & body & finale & _ & Hh & [Hbody Hcap] & Hr)].
  - assert (Hnone : captures (history w) = []).
    { pose proof (setup_script_captures cfg (session_start cfg env)) as Hc.
      rewrite Hpre, captures_app in Hc. now apply app_eq_nil in Hc as [-> _]. }
    rewrite Hnone. split.
    + intros _. split; [constructor |]. exists [].
      repeat split; try constructor. apply prefix_nil.
    + intros i j a b p q _ _ Hp. destruct i; discriminate.
  - assert (Hfin : captures finale = [] /\ readings finale = []).
    { destruct r; [| | now subst finale];
        now destruct (finale_plain finale Hr) as (-> & -> & _). }
    destruct Hfin as [Hfc Hfr].
    assert (Hstamps : session_stamps (history w) = readings body).
    { unfold session_stamps. rewrite Hh, setup_script_after_makedirs. simpl.
      now rewrite readings_app, Hfr, app_nil_r. }
    assert (Hcaps : captures (history w) = captures body).
    { rewrite Hh, captures_app, setup_script_captures. simpl.
      now rewrite captures_app, Hfc, app_nil_r. }
    rewrite Hstamps, Hcaps. split.
    + intros Hs. pose proof (prefix_is_take _ _ Hcap) as Htake.
      split.
      * rewrite Htake. eapply sublist_NoDup; [| apply sublist_take].
        apply spaced_nodup; [apply path_join_image_inj | assumption].
      * exists (take (length (captures body)) (map image_name (readings body))).
        split; [| split; [| split]].
        -- rewrite <- firstn_map, map_map. exact Htake.
        -- eapply sublist_NoDup; [| apply sublist_take].
           apply spaced_nodup; [apply image_name_inj | assumption].
        -- apply prefix_take.
        -- intros Hyears. apply Forall_take. apply List.Forall_forall.
           intros F HF. apply in_map_iff in HF as (dt & <- & Hdt).
           now apply image_name_layout, Hyears.
    + intros i j a b p q Ha Hb Hp Hq Hsame.
      apply (prefix_lookup_Some _ _ _ _ Hp) in Hcap as Hp'.
      pose proof (prefix_lookup_Some _ _ _ _ Hq Hcap) as Hq'.
      apply lookup_map in Hp' as (a' & Ha' & ->).
      apply lookup_map in Hq' as (b' & Hb' & ->).
      rewrite Ha in Ha'. rewrite Hb in Hb'.
      injection Ha' as <-. injection Hb' as <-.
      unfold image_path. now rewrite (same_second_image_name a b Hsame).
Qed.

Lemma C6_witness :
  let w := snd (run shipped 3 quiet ∅) in
  let d := session_directory shipped t_101500 in
  length (captures (history w)) = 3%nat /\
  NoDup (captures (history w)) /\
  exists names,
    captures (history w) = map (path_join d) names /\
    NoDup names /\
    names `prefix_of` map image_name (session_stamps (history w)) /\
    Forall (fun F => matches IMAGE_LAYOUT F = true) names.
Proof.
  intros w d.
  destruct (C6_names_unique_when_spaced shipped 3 quiet ∅ Running w)
    as [Hspaced _].
  - vm_compute. reflexivity.
  - destruct Hspaced as (Hnodup & names & Hcap & Hnames & Hpre & Hlayout).
    + vm_compute. repeat split.
    + split; [vm_compute; reflexivity |].
      split; [exact Hnodup |]. exists names.
      repeat (split; [assumption |]). apply Hlayout.
      intros dt Hdt. vm_compute in Hdt.
      repeat (destruct Hdt as [<- | Hdt]; [vm_compute; discriminate |]).
      contradiction.
Defined.

(** * Further properties of the script *)

(** ** Ways out other than the operator interrupt *)

Section Exits.

Variable cfg : configuration.
Variable d : string.
Variable env : environment.

(** The [finally] block, with what its calls did. *)
Lemma cleanup_end (w1 : world) (r : outcome unit) (w2 : world) :
  (stop ;; print STOPPED)%prog env w1 = (r, w2) ->
  (exists y, r = Raise y /\ log w2 = Stop :: log w1
             /\ fault env (length (log w1)) = Some y)
  \/ (log w2 = Print STOPPED :: Stop :: log w1
      /\ fault env (length (log w1)) = None
      /\ (r = Ok tt
          \/ exists z, r = Raise z /\ fault env (S (length (log w1))) = Some z)).
Proof.
  unfold stop, print. rewrite run_call_bind.
  destruct (fault env (length (log w1))) as [y|] eqn:F0.
  - intros [= <- <-]. left. now exists y.
  - unfold call. cbn [log dirs length].
    destruct (fault env (S (length (log w1)))) as [z|] eqn:F1; intros [= <- <-];
      right; repeat split; eauto.
Qed.

(** How the guarded block ends. *)
Lemma capture_session_end (fuel : nat) (w : world) (r : outcome unit) (w' : world) :
  capture_session fuel cfg d env w = (r, w') ->
  exited r = true ->
  (exists pre y, log w' = Stop :: pre /\ r = Raise y
                 /\ fault env (length pre) = Some y)
  \/ (exists pre, log w' = Print STOPPED :: Stop :: pre
                  /\ fault env (length pre) = None).
Proof.
  unfold capture_session, try_finally, try_except_KeyboardInterrupt.
  destruct ((print STARTING ;; capture_loop fuel cfg d)%prog env w)
    as [r1 w1] eqn:Hbody.
  apply guarded_spec in Hbody as (body & _ & _ & Hr1).
  destruct r1 as [u|x|]; [contradiction | | intros [= <- <-]; discriminate].
  destruct x as [|name].
  - unfold print at 1, call at 1.
    destruct (fault env (length (log w1))) as [e|];
      destruct ((stop ;; print STOPPED)%prog env _) as [r2 w2] eqn:Hc;
      apply cleanup_end in Hc; cbn [log] in Hc;
      destruct Hc as [(y & -> & Hl & Hy) | (Hl & Hn & [-> | (z & -> & Hz)])];
      intros [= <- <-] _;
      try (left; eexists _, y; repeat split; eassumption);
      right; eexists; split; eassumption.
  - destruct ((stop ;; print STOPPED)%prog env w1) as [r2 w2] eqn:Hc.
    apply cleanup_end in Hc.
    destruct Hc as [(y & -> & Hl & Hy) | (Hl & Hn & [-> | (z & -> & Hz)])];
      intros [= <- <-] _;
      try (left; eexists _, y; repeat split; eassumption);
      right; eexists; split; eassumption.
Qed.

(** Lines 181-202 when the one thing the environment raises is an
    exception other than the interrupt, at the [k]-th call. *)
Lemma capture_session_faulted (fuel : nat) (w : world) (k : nat) (name : string) :
  (length (log w) <= k)%nat ->
  fault env k = Some (Exception name) ->
  (forall i, (length (log w) <= i)%nat -> i <> k -> fault env i = None) ->
  0 <= INTERVAL_SECONDS cfg ->
  (k < fuel)%nat ->
  exists w' body,
    capture_session fuel cfg d env w = (Raise (Exception name), w') /\
    log w' = rev (Print STARTING :: body ++ [Stop; Print STOPPED]) ++ log w /\
    loop_body d body /\
    (length (log w) + S (length body) = S k)%nat.
Proof.
  intros Hk Hint Hcalm Hpos Hfuel.
  unfold capture_session, try_finally, try_except_KeyboardInterrupt.
  destruct ((print STARTING ;; capture_loop fuel cfg d)%prog env w)
    as [r1 w1] eqn:Hbody.
  apply guarded_spec in Hbody as (body & Hlog & Hbody & Hr1).
  assert (Hlen : length (log w1) = (length (log w) + S (length body))%nat).
  { rewrite Hlog, length_app, length_rev. simpl. lia. }
  destruct r1 as [u|x|]; [contradiction | |].
  - destruct Hr1 as [[_ Hneg] | Hx]; [lia |].
    assert (Hlast : (length (log w1) - 1)%nat = k).
    { destruct (decide ((length (log w1) - 1)%nat = k)) as [|Hne]; [assumption |].
      rewrite Hcalm in Hx; [discriminate | lia | assumption]. }
    rewrite Hlast, Hint in Hx. injection Hx as <-.
    unfold stop, print. rewrite run_call_bind.
    rewrite (Hcalm (length (log w1))) by lia.
    unfold call. cbn [log dirs length].
    rewrite (Hcalm (S (length (log w1)))) by lia.
    eexists _, body. split; [reflexivity |]. cbn [log].
    split; [| split; [assumption | lia]].
    rewrite Hlog. simpl. rewrite !rev_app_distr. simpl.
    rewrite <- ?app_assoc. reflexivity.
  - destruct Hr1 as [Hc Hf]. rewrite (Hc k) in Hint; [discriminate | lia].
Qed.

End Exits.

(** X1: an exception other than the interrupt raised in the guarded block
    is not caught.  Take a run whose start-up completed and in which the
    [k]-th call, in the guarded block, raises such an exception while
    nothing else raises there.  Then [main] ends by raising that exception;
    after the failing call come exactly one [stop] and the closing notice:
    the shutdown notice of the interrupt handler is not printed, nothing is
    retried and nothing more is captured. *)
Theorem X1_fault_in_the_loop_propagates
    (cfg : configuration) (fuel : nat) (env : environment) (fs : gset string)
    (d : string) (w1 : world) (k : nat) (name : string) :
  setup cfg env (boot fs) = (Ok d, w1) ->
  (length (log w1) <= k)%nat ->
  fault env k = Some (Exception name) ->
  (forall i, (length (log w1) <= i)%nat -> i <> k -> fault env i = None) ->
  0 <= INTERVAL_SECONDS cfg ->
  (k < fuel)%nat ->
  exists w before,
    run cfg fuel env fs = (Raise (Exception name), w) /\
    history w = before ++ [Stop; Print STOPPED] /\
    length before = S k /\
    captures (drop (S k) (history w)) = [].
Proof.
  intros Hsetup Hk Hint Hcalm Hpos Hfuel.
  destruct (capture_session_faulted cfg d env fuel w1 k name Hk Hint Hcalm Hpos Hfuel)
    as (w & body & Hrun & Hlog & _ & Hlen).
  exists w, (history w1 ++ Print STARTING :: body).
  assert (Hh : history w = (history w1 ++ Print STARTING :: body)
                           ++ [Stop; Print STOPPED]).
  { unfold history. rewrite Hlog, rev_app_distr, rev_involutive.
    rewrite <- app_assoc. reflexivity. }
  assert (Hbefore : length (history w1 ++ Print STARTING :: body) = S k).
  { rewrite length_app. unfold history. rewrite length_rev. simpl. lia. }
  split; [| split; [assumption | split; [assumption |]]].
  - unfold run, main, bind. rewrite Hsetup. exact Hrun.
  - rewrite Hh, <- Hbefore, drop_app_length. reflexivity.
Qed.

Lemma X1_witness :
  exists w before,
    run shipped 15 (raising 14 (Exception "OSError")) ∅
    = (Raise (Exception "OSError"), w) /\
    history w = before ++ [Stop; Print STOPPED] /\
    length before = 15%nat /\
    captures (drop 15 (history w)) = [].
Proof.
  apply (X1_fault_in_the_loop_propagates shipped 15
           (raising 14 (Exception "OSError")) ∅
           (session_directory shipped t_101500)
           (snd (setup shipped (raising 14 (Exception "OSError")) (boot ∅))) 14).
  - vm_compute. reflexivity.
  - vm_compute. lia.
  - reflexivity.
  - intros i _ Hi. simpl. destruct (Nat.eqb_spec i 14); [contradiction | reflexivity].
  - simpl. lia.
  - lia.
Defined.

(** X2: how a run that left the guarded block ends.  Either its last call
    is a [stop] that raised: then that exception is what leaves [main],
    whatever ended the loop (an interrupt included), and the closing notice
    is not printed.  Or its last two calls are a [stop] that returned and the
    closing notice. *)
Theorem X2_closing_notice_only_after_stop_returned
    (cfg : configuration) (fuel : nat) (env : environment) (fs : gset string)
    (d : string) (w1 : world) (r : outcome unit) (w : world) :
  setup cfg env (boot fs) = (Ok d, w1) ->
  run cfg fuel env fs = (r, w) ->
  exited r = true ->
  (exists pre y, history w = pre ++ [Stop] /\ r = Raise y
                 /\ fault env (length pre) = Some y)
  \/ (exists pre, history w = pre ++ [Stop; Print STOPPED]
                  /\ fault env (length pre) = None).
Proof.
  intros Hsetup Hrun Hexit. unfold run, main, bind in Hrun. rewrite Hsetup in Hrun.
  destruct (capture_session_end cfg d env fuel w1 r w Hrun Hexit)
    as [(pre & y & Hl & -> & Hy) | (pre & Hl & Hn)].
  - left. exists (rev pre), y. unfold history. rewrite Hl. simpl.
    now rewrite length_rev.
  - right. exists (rev pre). unfold history. rewrite Hl. simpl.
    rewrite <- app_assoc, length_rev. now split.
Qed.

Lemma X2_witness :
  exists pre y,
    history (snd (run shipped 3
                    (raising_twice 14 KeyboardInterrupt 16 (Exception "RuntimeError")) ∅))
    = pre ++ [Stop]
    /\ (Raise (Exception "RuntimeError") : outcome unit) = Raise y
    /\ fault (raising_twice 14 KeyboardInterrupt 16 (Exception "RuntimeError"))
             (length pre) = Some y.
Proof.
  destruct (X2_closing_notice_only_after_stop_returned shipped 3
              (raising_twice 14 KeyboardInterrupt 16 (Exception "RuntimeError")) ∅
              (session_directory shipped t_101500)
              (snd (setup shipped quiet (boot ∅)))
              (Raise (Exception "RuntimeError"))
              (snd (run shipped 3
                      (raising_twice 14 KeyboardInterrupt 16
                         (Exception "RuntimeError")) ∅)))
    as [H | (pre & Hh & Hn)].
  - vm_compute. reflexivity.
  - vm_compute. reflexivity.
  - reflexivity.
  - exact H.
  - exfalso. apply (f_equal (@rev event)) in Hh.
    rewrite rev_app_distr in Hh. vm_compute in Hh. discriminate.
Defined.

(** X3: an exception raised before the [try], the operator interrupt
    included, is not handled.  If start-up raises, [main] ends by raising the
    same exception and the failing call is the last call of the run: the
    device is not stopped, nothing is captured. *)
Theorem X3_fault_before_the_loop
    (cfg : configuration) (fuel : nat) (env : environment) (fs : gset string)
    (x : exn) (w1 : world) :
  setup cfg env (boot fs) = (Raise x, w1) ->
  run cfg fuel env fs = (Raise x, w1) /\
  (exists pre e, history w1 = pre ++ [e] /\ fault env (length pre) = Some x) /\
  count is_stop (history w1) = 0%nat /\
  captures (history w1) = [].
Proof.
  intros Hsetup.
  assert (Hrun : run cfg fuel env fs = (Raise x, w1)).
  { unfold run, main, bind. now rewrite Hsetup. }
  split; [assumption |].
  destruct (setup_outcome cfg env fs) as (r & w2 & Hs & Hr).
  rewrite Hsetup in Hs. injection Hs as <- <-.
  destruct Hr as [[rest Hpre] Hlast]. split; [assumption |].
  split.
  - pose proof (setup_script_device cfg (session_start cfg env)) as Hdev.
    rewrite Hpre, device_run_app in Hdev.
    destruct (device_run Idle (history w1)) as [s|] eqn:Hs; [| discriminate].
    destruct (device_run_counts _ _ _ Hs) as (_ & _ & _ & _ & ->).
    destruct (device_run_counts _ _ _ Hdev) as (Hle & _).
    destruct s; simpl in Hle; try lia; reflexivity.
  - pose proof (setup_script_captures cfg (session_start cfg env)) as Hc.
    rewrite Hpre, captures_app in Hc. now apply app_eq_nil in Hc as [-> _].
Qed.

Lemma X3_witness :
  run shipped 5 (raising 8 KeyboardInterrupt) ∅
  = (Raise KeyboardInterrupt, snd (setup shipped (raising 8 KeyboardInterrupt) (boot ∅))) /\
  (exists pre e,
      history (snd (setup shipped (raising 8 KeyboardInterrupt) (boot ∅))) = pre ++ [e]
      /\ fault (raising 8 KeyboardInterrupt) (length pre) = Some KeyboardInterrupt) /\
  count is_stop (history (snd (setup shipped (raising 8 KeyboardInterrupt) (boot ∅))))
  = 0%nat /\
  captures (history (snd (setup shipped (raising 8 KeyboardInterrupt) (boot ∅)))) = [].
Proof.
  apply (X3_fault_before_the_loop shipped 5 (raising 8 KeyboardInterrupt) ∅).
  vm_compute. reflexivity.
Defined.

(** ** The program logic *)

Section Logic.

Lemma triple_conseq {A} (P P' : world -> Prop) (m : M A)
    (Q Q' : A -> world -> Prop) (E E' : world -> Prop) :
  triple P' m Q' E' ->
  (forall w, P w -> P' w) ->
  (forall a w, Q' a w -> Q a w) ->
  (forall w, E' w -> E w) ->
  triple P m Q E.
Proof.
  intros Hm HP HQ HE env w r w' Hw Hrun.
  specialize (Hm env w r w' (HP w Hw) Hrun).
  destruct r; auto.
Qed.

Lemma triple_ret {A} (P : world -> Prop) (a : A) (E : world -> Prop) :
  triple P (ret a) (fun a' w => a' = a /\ P w) E.
Proof. intros env w r w' Hw [= <- <-]. now split. Qed.

Lemma triple_raise {A} (P : world -> Prop) (x : exn) (Q : A -> world -> Prop) :
  triple P (raise x) Q P.
Proof. intros env w r w' Hw [= <- <-]. exact Hw. Qed.

Lemma triple_still_running {A} (P : world -> Prop) (Q : A -> world -> Prop) :
  triple P still_running Q P.
Proof. intros env w r w' Hw [= <- <-]. exact Hw. Qed.

Lemma triple_call (P : world -> Prop) (e : event) :
  triple P (call e) (fun _ w' => exists w, P w /\ w' = push e w)
    (fun w' => exists w, P w /\ w' = push e w).
Proof.
  intros env w r w' Hw Hrun. unfold call in Hrun.
  destruct (fault env (length (log w))); injection Hrun as <- <-;
    exists w; now split.
Qed.

Lemma triple_bind {A B} (P : world -> Prop) (m : M A) (k : A -> M B)
    (Q : A -> world -> Prop) (R : B -> world -> Prop) (E : world -> Prop) :
  triple P m Q E ->
  (forall a, triple (Q a) (k a) R E) ->
  triple P (bind m k) R E.
Proof.
  intros Hm Hk env w r w' Hw Hrun. unfold bind in Hrun.
  destruct (m env w) as [r1 w1] eqn:Hm1.
  specialize (Hm env w r1 w1 Hw Hm1).
  destruct r1 as [a|x|].
  - exact (Hk a env w1 r w' Hm Hrun).
  - injection Hrun as <- <-. exact Hm.
  - injection Hrun as <- <-. exact Hm.
Qed.

Lemma triple_try_except (P : world -> Prop) (body handler : M unit)
    (Q : unit -> world -> Prop) (E1 E : world -> Prop) :
  triple P body Q E1 ->
  triple E1 handler Q E ->
  (forall w, E1 w -> E w) ->
  triple P (try_except_KeyboardInterrupt body handler) Q E.
Proof.
  intros Hb Hh HE env w r w' Hw Hrun. unfold try_except_KeyboardInterrupt in Hrun.
  destruct (body env w) as [r1 w1] eqn:Hb1.
  specialize (Hb env w r1 w1 Hw Hb1).
  destruct r1 as [u|[|name]|].
  - injection Hrun as <- <-. exact Hb.
  - exact (Hh env w1 r w' Hb Hrun).
  - injection Hrun as <- <-. now apply HE.
  - injection Hrun as <- <-. now apply HE.
Qed.

Lemma triple_try_finally (P : world -> Prop) (body cleanup : M unit)
    (Q1 Q : unit -> world -> Prop) (E1 E : world -> Prop) :
  triple P body Q1 E1 ->
  (forall u, triple (Q1 u) cleanup Q E) ->
  triple E1 cleanup (fun _ => E) E ->
  (forall w, E1 w -> E w) ->
  triple P (try_finally body cleanup) Q E.
Proof.
  intros Hb Hc1 Hc2 HE env w r w' Hw Hrun. unfold try_finally in Hrun.
  destruct (body env w) as [r1 w1] eqn:Hb1.
  specialize (Hb env w r1 w1 Hw Hb1).
  destruct r1 as [u|x|].
  - exact (Hc1 u env w1 r w' Hb Hrun).
  - destruct (cleanup env w1) as [r2 w2] eqn:Hc.
    specialize (Hc2 env w1 r2 w2 Hb Hc).
    destruct r2; injection Hrun as <- <-; exact Hc2.
  - injection Hrun as <- <-. now apply HE.
Qed.

(** *** Invariants *)

Lemma keeps_ret {A} (I : world -> Prop) (a : A) : keeps I (ret a).
Proof. intros env w r w' Hw [= <- <-]. exact Hw. Qed.

Lemma keeps_raise {A} (I : world -> Prop) (x : exn) : keeps I (@raise A x).
Proof. apply triple_raise. Qed.

Lemma keeps_still_running {A} (I : world -> Prop) : keeps I (@still_running A).
Proof. apply triple_still_running. Qed.

Lemma keeps_call (I : world -> Prop) (e : event) : stable I -> keeps I (call e).
Proof.
  intros Hs. eapply triple_conseq; [apply (triple_call I e) | auto ..];
    [intros _ w' (w & Hw & ->) | intros w' (w & Hw & ->)]; now apply Hs.
Qed.

Lemma keeps_bind {A B} (I : world -> Prop) (m : M A) (k : A -> M B) :
  keeps I m -> (forall a, keeps I (k a)) -> keeps I (bind m k).
Proof. intros Hm Hk. eapply triple_bind; [exact Hm | exact Hk]. Qed.

Lemma keeps_now (I : world -> Prop) : stable I -> keeps I datetime_now.
Proof.
  intros Hs env w r w' Hw Hrun. unfold datetime_now in Hrun.
  revert Hrun. apply (keeps_bind I); [now apply keeps_call | intros; apply keeps_ret |].
  exact Hw.
Qed.

Lemma keeps_sleep (I : world -> Prop) (secs : Z) : stable I -> keeps I (sleep secs).
Proof.
  intros Hs. unfold sleep. destruct (secs <? 0);
    [apply keeps_raise | now apply keeps_call].
Qed.

Lemma keeps_try_except (I : world -> Prop) (body handler : M unit) :
  keeps I body -> keeps I handler ->
  keeps I (try_except_KeyboardInterrupt body handler).
Proof. intros Hb Hh. eapply triple_try_except; eauto. Qed.

Lemma keeps_try_finally (I : world -> Prop) (body cleanup : M unit) :
  keeps I body -> keeps I cleanup -> keeps I (try_finally body cleanup).
Proof.
  intros Hb Hc. eapply triple_try_finally; eauto.
Qed.

Lemma keeps_capture_loop (I : world -> Prop) (cfg : configuration) (d : string)
    (fuel : nat) :
  stable I -> keeps I (capture_loop fuel cfg d).
Proof.
  intros Hs. induction fuel as [|fuel IH]; [apply keeps_still_running |].
  cbn [capture_loop].
  apply keeps_bind; [now apply keeps_now | intros now].
  apply keeps_bind; [now apply keeps_call | intros _].
  apply keeps_bind; [now apply keeps_call | intros _].
  apply keeps_bind; [now apply keeps_sleep | intros _].
  exact IH.
Qed.

Lemma keeps_capture_session (I : world -> Prop) (cfg : configuration)
    (d : string) (fuel : nat) :
  stable I -> keeps I (capture_session fuel cfg d).
Proof.
  intros Hs. unfold capture_session.
  apply keeps_try_finally.
  - apply keeps_try_except; [| now apply keeps_call].
    apply keeps_bind; [now apply keeps_call | intros _].
    now apply keeps_capture_loop.
  - apply keeps_bind; [now apply keeps_call | intros _; now apply keeps_call].
Qed.

Lemma keeps_configure_auto (I : world -> Prop) (cfg : configuration) :
  stable I -> keeps I (configure_auto cfg).
Proof.
  intros Hs. unfold configure_auto, create_still_configuration.
  repeat first [ apply keeps_bind; [| intros ?] | now apply keeps_call
               | apply keeps_ret ].
Qed.

Lemma keeps_configure_manual (I : world -> Prop) (cfg : configuration) :
  stable I -> keeps I (configure_manual cfg).
Proof.
  intros Hs.
  unfold configure_manual, create_still_configuration, handle_exposure,
    handle_white_balance, log_settings.
  repeat first [ apply keeps_bind; [| intros ?] | now apply keeps_call
               | apply keeps_ret
               | match goal with
                 | |- keeps _ (match ?x with _ => _ end) => destruct x
                 | |- keeps _ (if ?b then _ else _) => destruct b
                 end ].
Qed.

End Logic.

(** ** The file system *)

Section FileSystem.

Lemma triple_true {A} (P : world -> Prop) (m : M A) :
  triple P m (fun _ _ => True) (fun _ => True).
Proof. intros env w r w' _ _. now destruct r. Qed.

Lemma stable_made_by_run (fs : gset string) : stable (made_by_run fs).
Proof.
  intros w e [Hsub Hall]. split; [exact Hsub |].
  intros p Hp. destruct (Hall p Hp) as [Hfs | (name & ok & Hin & Hn)]; [now left |].
  right. exists name, ok. split; [now right | exact Hn].
Qed.

Lemma keeps_makedirs_made (fs : gset string) (name : string) (ok : bool) :
  keeps (made_by_run fs) (makedirs name ok).
Proof.
  intros env w r w' Hw Hrun. unfold makedirs, call in Hrun.
  pose proof (stable_made_by_run fs w (Makedirs name ok) Hw) as Hpush.
  destruct (fault env (length (log w))).
  { injection Hrun as <- <-. exact Hpush. }
  destruct (decide (name ∈ dirs w)).
  { destruct ok; injection Hrun as <- <-; exact Hpush. }
  injection Hrun as <- <-. destruct Hw as [Hsub Hall]. split.
  - simpl. set_solver.
  - simpl. intros p Hp.
    apply elem_of_union in Hp as [Hp | Hp];
      [apply elem_of_union in Hp as [Hp | Hp] |].
    + destruct (Hall p Hp) as [Hfs | (name' & ok' & Hin & Hn)]; [now left |].
      right. exists name', ok'. split; [now right | exact Hn].
    + apply elem_of_singleton in Hp as ->.
      right. exists name, ok. split; [now left | now left].
    + apply elem_of_list_to_set, list_elem_of_In in Hp.
      right. exists name, ok. split; [now left | now right].
Qed.

Lemma keeps_setup (I : world -> Prop) (cfg : configuration) :
  stable I -> (forall name ok, keeps I (makedirs name ok)) -> keeps I (setup cfg).
Proof.
  intros Hs Hmk. unfold setup, create_output_directory.
  apply keeps_bind; [now apply keeps_call | intros _].
  apply keeps_bind;
    [destruct (FULLY_AUTO_MODE cfg);
     [now apply keeps_configure_auto | now apply keeps_configure_manual]
    | intros _].
  apply keeps_bind; [now apply keeps_call | intros _].
  apply keeps_bind; [now apply keeps_call | intros _].
  apply keeps_bind.
  - apply keeps_bind; [now apply keeps_now | intros now].
    apply keeps_bind; [apply Hmk | intros _; apply keeps_ret].
  - intros d. apply keeps_bind; [now apply keeps_call | intros _; apply keeps_ret].
Qed.

Lemma keeps_main (I : world -> Prop) (cfg : configuration) (fuel : nat) :
  stable I -> (forall name ok, keeps I (makedirs name ok)) -> keeps I (main cfg fuel).
Proof.
  intros Hs Hmk. unfold main.
  apply keeps_bind; [now apply keeps_setup | intros d].
  now apply keeps_capture_session.
Qed.

(** [create_output_directory] returns a directory that exists. *)
Lemma create_output_directory_exists (base : string) :
  triple (fun _ => True) (create_output_directory base)
    (fun p w => p ∈ dirs w) (fun _ => True).
Proof.
  intros env w r w' _ Hrun. unfold create_output_directory in Hrun.
  rewrite run_now_bind in Hrun.
  destruct (fault env (length (log w))); [now injection Hrun as <- <- |].
  unfold bind, makedirs, call, ret in Hrun. cbn [log dirs length] in Hrun.
  destruct (fault env (S (length (log w)))); [now injection Hrun as <- <- |].
  destruct (decide (_ ∈ dirs w)) as [Hin | Hout]; injection Hrun as <- <-; simpl.
  - exact Hin.
  - set_solver.
Qed.

Lemma setup_makes_directory (cfg : configuration) :
  triple (fun _ => True) (setup cfg) (fun d w => d ∈ dirs w) (fun _ => True).
Proof.
  unfold setup.
  do 4 (eapply triple_bind; [apply triple_true | intros ?; cbn beta]).
  eapply triple_bind.
  - apply create_output_directory_exists.
  - intros d env w r w' Hw Hrun. unfold print in Hrun.
    rewrite run_call_bind in Hrun.
    destruct (fault env (length (log w))); injection Hrun as <- <-; [exact I |].
    exact Hw.
Qed.

(** The one directory a run makes. *)
Lemma run_makedirs (cfg : configuration) (fuel : nat) (env : environment)
    (fs : gset string) (r : outcome unit) (w : world) (name : string) (ok : bool) :
  run cfg fuel env fs = (r, w) ->
  In (Makedirs name ok) (history w) ->
  name = session_directory cfg (session_start cfg env).
Proof.
  intros Hrun Hin. apply run_shape in Hrun.
  destruct Hrun as [(x & w1 & _ & _ & [rest Hpre])
                   | (w1 & body & finale & _ & Hh & [Hbody _] & Hr)].
  - apply (setup_script_makedirs cfg (session_start cfg env) name ok).
    rewrite Hpre. apply in_or_app. now left.
  - rewrite Hh in Hin. apply in_app_or in Hin as [Hin | Hin];
      [now apply (setup_script_makedirs cfg _ name ok) |].
    destruct Hin as [Hin | Hin]; [discriminate |].
    apply in_app_or in Hin as [Hin | Hin].
    + now apply (loop_events_in body _ Hbody) in Hin.
    + assert (Hfin : Makedirs name ok = Stop \/ Makedirs name ok = Print STOPPING
                     \/ Makedirs name ok = Print STOPPED).
      { destruct r; [| | subst finale; contradiction];
          now apply (finale_plain finale Hr). }
      destruct Hfin as [? | [? | ?]]; discriminate.
Qed.

End FileSystem.

(** X4: what a run does to the file system.  Whatever the environment does,
    a run removes no directory; it makes no directory but the session
    directory and, as [os.makedirs] does, its ancestors; and when an image
    has been captured the session directory exists. *)
Theorem X4_file_system_effects
    (cfg : configuration) (fuel : nat) (env : environment) (fs : gset string) :
  let w := snd (run cfg fuel env fs) in
  let d := session_directory cfg (session_start cfg env) in
  fs ⊆ dirs w /\
  dirs w ⊆ fs ∪ {[d]} ∪ list_to_set (ancestors d) /\
  (captures (history w) <> [] -> d ∈ dirs w).
Proof.
  cbv zeta. destruct (run cfg fuel env fs) as [r w0] eqn:Hrun. cbn [snd].
  set (d := session_directory cfg (session_start cfg env)).
  assert (Hmade : made_by_run fs w0).
  { pose proof (keeps_main (made_by_run fs) cfg fuel (stable_made_by_run fs)
                  (keeps_makedirs_made fs) env (boot fs) r w0) as Hk.
    assert (H0 : made_by_run fs (boot fs)).
    { split; [reflexivity |]. intros p Hp. now left. }
    specialize (Hk H0 Hrun). now destruct r. }
  destruct Hmade as [Hsub Hall]. split; [exact Hsub |]. split.
  - intros p Hp. destruct (Hall p Hp) as [Hfs | (name & ok & Hin & Hn)];
      [set_solver |].
    assert (Hname : name = d).
    { apply (run_makedirs cfg fuel env fs r w0 name ok Hrun).
      unfold history. now apply in_rev in Hin. }
    subst name. destruct Hn as [-> | Hn]; [set_solver |].
    apply elem_of_union_r, elem_of_list_to_set, list_elem_of_In. exact Hn.
  - intros Hcap. pose proof Hrun as Hshape. apply run_shape in Hshape.
    destruct Hshape as [(x & w1 & _ & _ & [rest Hpre])
                       | (w1 & body & finale & Hsetup & _)].
    + exfalso. apply Hcap.
      pose proof (setup_script_captures cfg (session_start cfg env)) as Hc.
      rewrite Hpre, captures_app in Hc. now apply app_eq_nil in Hc as [-> _].
    + fold d in Hsetup.
      pose proof (setup_makes_directory cfg env (boot fs) _ _ I Hsetup) as Hd.
      simpl in Hd.
      assert (Hst : stable (fun w => d ∈ dirs w)) by (intros ? ? H; exact H).
      unfold run, main, bind in Hrun. rewrite Hsetup in Hrun.
      pose proof (keeps_capture_session _ cfg d fuel Hst env w1 r w0 Hd Hrun) as Hk.
      now destruct r.
Qed.

Lemma X4_witness :
  session_directory shipped (session_start shipped quiet)
  ∈ dirs (snd (run shipped 1 quiet ∅)).
Proof.
  assert (H : captures (history (snd (run shipped 1 quiet ∅))) <> [])
    by (vm_compute; discriminate).
  exact (proj2 (proj2 (X4_file_system_effects shipped 1 quiet ∅)) H).
Defined.

(** ** Pacing *)

Section Pacing.

Variable cfg : configuration.

Lemma pace_run_app (s : pace) (h1 h2 : list event) :
  pace_run (INTERVAL_SECONDS cfg) s (h1 ++ h2) =
  match pace_run (INTERVAL_SECONDS cfg) s h1 with
  | Some s' => pace_run (INTERVAL_SECONDS cfg) s' h2
  | None => None
  end.
Proof.
  revert s. induction h1 as [|e h1 IH]; intros s; [reflexivity |].
  simpl. destruct (pace_step _ s e); [apply IH | reflexivity].
Qed.

Lemma pace_push (e : event) (w : world) :
  pace_of cfg (push e w) =
  match pace_of cfg w with
  | Some s => pace_step (INTERVAL_SECONDS cfg) s e
  | None => None
  end.
Proof.
  unfold pace_of, history. simpl. rewrite pace_run_app.
  destruct (pace_run _ Ready (rev (log w))) as [s|]; [| reflexivity].
  simpl. now destruct (pace_step _ s e).
Qed.

Lemma pace_run_prefix (s : pace) (h1 h2 : list event) :
  h1 `prefix_of` h2 ->
  is_Some (pace_run (INTERVAL_SECONDS cfg) s h2) ->
  is_Some (pace_run (INTERVAL_SECONDS cfg) s h1).
Proof.
  intros [rest ->]. rewrite pace_run_app.
  destruct (pace_run _ s h1); [eauto | intros [? [=]]].
Qed.

(** What a paced history holds: sleeps of the interval only, and as many
    captures as sleeps, but for the capture that is owed its sleep. *)
Lemma pace_run_facts (h : list event) :
  forall a b,
    pace_run (INTERVAL_SECONDS cfg) a h = Some b ->
    (forall secs, In (Sleep secs) h -> secs = INTERVAL_SECONDS cfg /\ 0 <= secs) /\
    (length (captures h) + owed a = count is_sleep h + owed b)%nat.
Proof.
  induction h as [|e h IH]; intros a b Hrun.
  - injection Hrun as <-. split; [intros ? [] | reflexivity].
  - simpl in Hrun.
    destruct (pace_step _ a e) as [a'|] eqn:Hstep; [| discriminate].
    destruct (IH a' b Hrun) as [Hs Hc]. unfold count in *.
    destruct e, a; simpl in Hstep; try discriminate;
      try (injection Hstep as <-; split;
           [ intros secs [Hin | Hin]; [discriminate | now apply Hs]
           | simpl in *; lia ]).
    destruct ((secs =? INTERVAL_SECONDS cfg) && (0 <=? secs)) eqn:Hok;
      [| discriminate].
    injection Hstep as <-. apply andb_prop in Hok as [Heq Hpos]. split.
    + intros secs' [[= <-] | Hin]; [lia | now apply Hs].
    + simpl in *. lia.
Qed.

Lemma triple_call_pace (s s' : pace) (e : event) :
  pace_step (INTERVAL_SECONDS cfg) s e = Some s' ->
  triple (fun w => pace_of cfg w = Some s) (call e)
    (fun _ w => pace_of cfg w = Some s')
    (fun w => is_Some (pace_of cfg w)).
Proof.
  intros Hstep.
  eapply triple_conseq;
    [apply (triple_call (fun w => pace_of cfg w = Some s) e) | auto | |];
    [intros u w' (w & Hw & ->) | intros w' (w & Hw & ->)];
    rewrite pace_push, Hw, Hstep; eauto.
Qed.

Lemma stable_paced_neutral (e : event) (w : world) :
  (forall s, pace_step (INTERVAL_SECONDS cfg) s e = Some s) ->
  is_Some (pace_of cfg w) -> is_Some (pace_of cfg (push e w)).
Proof.
  intros Hn [s Hs]. rewrite pace_push, Hs, Hn. eauto.
Qed.

Lemma keeps_call_paced (e : event) :
  (forall s, pace_step (INTERVAL_SECONDS cfg) s e = Some s) ->
  keeps (fun w => is_Some (pace_of cfg w)) (call e).
Proof.
  intros Hn.
  eapply triple_conseq;
    [apply (triple_call (fun w => is_Some (pace_of cfg w)) e) | auto | |];
    [intros u w' (w & Hw & ->) | intros w' (w & Hw & ->)];
    now apply stable_paced_neutral.
Qed.

Lemma triple_now_pace (s : pace) :
  triple (fun w => pace_of cfg w = Some s) datetime_now
    (fun _ w => pace_of cfg w = Some s)
    (fun w => is_Some (pace_of cfg w)).
Proof.
  intros env w r w' Hw Hrun. unfold datetime_now, bind, call, ret in Hrun.
  destruct (fault env (length (log w))); injection Hrun as <- <-;
    change (World (?e :: log w) (dirs w)) with (push e w);
    rewrite pace_push, Hw; simpl; eauto.
Qed.

Lemma capture_loop_paced (d : string) (fuel : nat) :
  triple (fun w => pace_of cfg w = Some Ready) (capture_loop fuel cfg d)
    (fun _ w => is_Some (pace_of cfg w))
    (fun w => is_Some (pace_of cfg w)).
Proof.
  induction fuel as [|fuel IH].
  - intros env w r w' Hw [= <- <-]. rewrite Hw. eauto.
  - cbn [capture_loop].
    eapply (triple_bind _ _ _ (fun _ w => pace_of cfg w = Some Ready)).
    { apply triple_now_pace. }
    intros now.
    eapply (triple_bind _ _ _ (fun _ w => pace_of cfg w = Some Ready));
      [now apply (triple_call_pace Ready Ready) | intros _].
    eapply (triple_bind _ _ _ (fun _ w => pace_of cfg w = Some Captured));
      [now apply (triple_call_pace Ready Captured) | intros _].
    eapply (triple_bind _ _ _ (fun _ w => pace_of cfg w = Some Ready));
      [| intros _; exact IH].
    unfold sleep. destruct (INTERVAL_SECONDS cfg <? 0) eqn:Hneg.
    + intros env w r w' Hw [= <- <-]. rewrite Hw. eauto.
    + apply (triple_call_pace Captured Ready). simpl.
      rewrite Z.eqb_refl. simpl.
      destruct (0 <=? INTERVAL_SECONDS cfg) eqn:Hpos; [reflexivity | lia].
Qed.

Lemma capture_session_paced (d : string) (fuel : nat) :
  triple (fun w => pace_of cfg w = Some Ready) (capture_session fuel cfg d)
    (fun _ w => is_Some (pace_of cfg w))
    (fun w => is_Some (pace_of cfg w)).
Proof.
  unfold capture_session.
  assert (Hclean : keeps (fun w => is_Some (pace_of cfg w))
                     (stop ;; print STOPPED)%prog).
  { apply keeps_bind; [| intros _]; now apply keeps_call_paced. }
  eapply (triple_try_finally _ _ _ (fun _ w => is_Some (pace_of cfg w)));
    [| intros _; exact Hclean | exact Hclean | auto].
  eapply triple_try_except; [| now apply keeps_call_paced | auto].
  eapply (triple_bind _ _ _ (fun _ w => pace_of cfg w = Some Ready));
    [now apply (triple_call_pace Ready Ready) | intros _].
  apply capture_loop_paced.
Qed.

Lemma setup_script_paced (dt : datetime) :
  pace_run (INTERVAL_SECONDS cfg) Ready (setup_script cfg dt) = Some Ready.
Proof. script_cases cfg; reflexivity. Qed.

Lemma run_paced (fuel : nat) (env : environment) (fs : gset string) :
  is_Some (pace_of cfg (snd (run cfg fuel env fs))).
Proof.
  destruct (run cfg fuel env fs) as [r w] eqn:Hrun. simpl.
  unfold run, main, bind in Hrun.
  destruct (setup_outcome cfg env fs) as (r1 & w1 & Hsetup & Hr1).
  rewrite Hsetup in Hrun. destruct r1 as [d|x|]; [| | contradiction].
  - destruct Hr1 as [_ Hh].
    assert (Hready : pace_of cfg w1 = Some Ready).
    { unfold pace_of. rewrite Hh. apply setup_script_paced. }
    pose proof (capture_session_paced d fuel env w1 r w Hready Hrun) as Hk.
    now destruct r.
  - injection Hrun as <- <-. destruct Hr1 as [Hpre _].
    unfold pace_of. eapply pace_run_prefix; [exact Hpre |].
    rewrite setup_script_paced. eauto.
Qed.

End Pacing.

(** X5: the pace of a run.  Whatever the environment does, [time.sleep] is
    called only with the configured interval, and only when that is not
    negative; a capture is made only when the capture before it has had its
    sleep, and a sleep only after a capture: there are as many captures as
    sleeps, or one more. *)
Theorem X5_one_sleep_between_captures
    (cfg : configuration) (fuel : nat) (env : environment) (fs : gset string) :
  let h := history (snd (run cfg fuel env fs)) in
  is_Some (pace_run (INTERVAL_SECONDS cfg) Ready h) /\
  (forall secs, In (Sleep secs) h -> secs = INTERVAL_SECONDS cfg /\ 0 <= secs) /\
  (count is_sleep h <= length (captures h) <= count is_sleep h + 1)%nat.
Proof.
  cbv zeta. destruct (run_paced cfg fuel env fs) as [s Hs].
  unfold pace_of in Hs. split; [eauto |].
  destruct (pace_run_facts cfg _ _ _ Hs) as [Hsl Hc].
  split; [exact Hsl |]. destruct s; simpl in Hc; lia.
Qed.

(** ** Runs in which nothing raises *)

Section Calm.

Variable cfg : configuration.
Variable d : string.
Variable env : environment.
Hypothesis quiet_env : forall i, fault env i = None.

Lemma world_eta (w : world) : World (log w) (dirs w) = w.
Proof. now destruct w. Qed.

Lemma capture_loop_calm (fuel : nat) :
  0 <= INTERVAL_SECONDS cfg ->
  forall w,
    capture_loop fuel cfg d env w
    = (Running, World (rev (turns cfg d env fuel (length (log w))) ++ log w) (dirs w)).
Proof.
  intros Hpos. induction fuel as [|fuel IH]; intros w.
  - simpl. unfold still_running. now rewrite world_eta.
  - cbn [capture_loop]. unfold print, capture_file, sleep.
    rewrite run_now_bind, quiet_env.
    rewrite run_call_bind, quiet_env.
    rewrite run_call_bind, quiet_env.
    destruct (INTERVAL_SECONDS cfg <? 0) eqn:Hneg; [lia |].
    rewrite run_call_bind, quiet_env.
    rewrite IH. cbn [log dirs length turns]. f_equal. f_equal.
    rewrite rev_app_distr, <- app_assoc. reflexivity.
Qed.

(** With a negative interval the first turn ends at [time.sleep]. *)
Lemma capture_loop_negative (fuel : nat) (w : world) :
  INTERVAL_SECONDS cfg < 0 ->
  capture_loop (S fuel) cfg d env w
  = (Raise (Exception "ValueError"),
     World (rev (take 3 (turn cfg d (clock env (length (log w))))) ++ log w) (dirs w)).
Proof.
  intros Hneg. cbn [capture_loop]. unfold print, capture_file, sleep.
  rewrite run_now_bind, quiet_env.
  rewrite run_call_bind, quiet_env.
  rewrite run_call_bind, quiet_env.
  destruct (INTERVAL_SECONDS cfg <? 0) eqn:Hlt; [| lia].
  reflexivity.
Qed.

Lemma captures_turns (k n : nat) : length (captures (turns cfg d env k n)) = k.
Proof.
  revert n. induction k as [|k IH]; intros n; [reflexivity |].
  simpl. now rewrite IH.
Qed.

Lemma sleeps_turns (k n : nat) : count is_sleep (turns cfg d env k n) = k.
Proof.
  revert n. induction k as [|k IH]; intros n; [reflexivity |].
  unfold count in *. simpl. now rewrite IH.
Qed.

Lemma stops_turns (k n : nat) : count is_stop (turns cfg d env k n) = 0%nat.
Proof.
  revert n. induction k as [|k IH]; intros n; [reflexivity |].
  unfold count in *. simpl. now rewrite IH.
Qed.

Lemma count_append (p : event -> bool) (h1 h2 : list event) :
  count p (h1 ++ h2) = (count p h1 + count p h2)%nat.
Proof. unfold count. now rewrite List.filter_app, length_app. Qed.

End Calm.

(** X6: the loop does not end of itself.  When nothing raises and the
    interval is not negative, a run observed for [fuel] turns is still
    running, whatever [fuel] is; it has made the calls of the start-up, the
    announcement and [fuel] whole turns (the clock, the console, the
    capture, the sleep of the interval), hence [fuel] captures and [fuel]
    sleeps, and it has not called [stop]. *)
Theorem X6_loop_runs_until_something_raises
    (cfg : configuration) (fuel : nat) (env : environment) (fs : gset string) :
  (forall i, fault env i = None) ->
  0 <= INTERVAL_SECONDS cfg ->
  let dt := session_start cfg env in
  let d := session_directory cfg dt in
  exists w,
    run cfg fuel env fs = (Running, w) /\
    history w = setup_script cfg dt
                ++ Print STARTING
                   :: turns cfg d env fuel (S (length (setup_script cfg dt))) /\
    length (captures (history w)) = fuel /\
    count is_sleep (history w) = fuel /\
    count is_stop (history w) = 0%nat.
Proof.
  intros Hquiet Hpos dt d.
  destruct (setup_completes cfg env fs) as [w1 Hsetup];
    [intros i _; apply Hquiet |].
  fold dt d in Hsetup.
  destruct (setup_outcome cfg env fs) as (r1 & w1' & Hs & Hr1).
  rewrite Hsetup in Hs. injection Hs as <- <-. destruct Hr1 as [_ Hh]. fold dt in Hh.
  assert (Hlen : length (log w1) = length (setup_script cfg dt)).
  { rewrite <- Hh. unfold history. now rewrite length_rev. }
  eexists. split.
  - unfold run, main, bind. rewrite Hsetup.
    unfold capture_session, try_finally, try_except_KeyboardInterrupt, print.
    rewrite run_call_bind, Hquiet.
    rewrite (capture_loop_calm cfg d env Hquiet fuel Hpos). reflexivity.
  - assert (Hhist : history
        (World (rev (turns cfg d env fuel
                       (length (log (World (Print STARTING :: log w1) (dirs w1)))))
                ++ log (World (Print STARTING :: log w1) (dirs w1)))
               (dirs (World (Print STARTING :: log w1) (dirs w1))))
      = setup_script cfg dt
        ++ Print STARTING :: turns cfg d env fuel (S (length (setup_script cfg dt)))).
    { unfold history. cbn [log dirs length]. rewrite rev_app_distr, rev_involutive.
      simpl. rewrite <- app_assoc. fold (history w1). rewrite Hh, Hlen. reflexivity. }
    rewrite Hhist. split; [reflexivity |].
    pose proof (setup_script_paced cfg dt) as Hp.
    destruct (pace_run_facts cfg _ _ _ Hp) as [_ Hc].
    pose proof (setup_script_device cfg dt) as Hdev.
    destruct (device_run_counts _ _ _ Hdev) as (_ & _ & _ & _ & Hstop).
    split; [| split].
    + rewrite captures_app, setup_script_captures. simpl. apply captures_turns.
    + change (Print STARTING :: turns cfg d env fuel (S (length (setup_script cfg dt))))
        with ([Print STARTING]
              ++ turns cfg d env fuel (S (length (setup_script cfg dt)))).
      rewrite !count_append, sleeps_turns.
      rewrite setup_script_captures in Hc. cbn [length owed Nat.add] in Hc.
      rewrite Nat.add_0_r in Hc. rewrite <- Hc. reflexivity.
    + change (Print STARTING :: turns cfg d env fuel (S (length (setup_script cfg dt))))
        with ([Print STARTING]
              ++ turns cfg d env fuel (S (length (setup_script cfg dt)))).
      rewrite !count_append, stops_turns, Hstop. reflexivity.
Qed.

Lemma X6_witness :
  exists w,
    run shipped 3 quiet ∅ = (Running, w) /\
    history w = setup_script shipped t_101500
                ++ Print STARTING
                   :: turns shipped (session_directory shipped t_101500) quiet 3 12 /\
    length (captures (history w)) = 3%nat /\
    count is_sleep (history w) = 3%nat /\
    count is_stop (history w) = 0%nat.
Proof.
  apply (X6_loop_runs_until_something_raises shipped 3 quiet ∅).
  - reflexivity.
  - simpl. lia.
Defined.

(** X7: a negative interval.  When nothing else raises and
    [INTERVAL_SECONDS] is negative, [time.sleep] raises [ValueError] in the
    first turn: the run captures one image, does not sleep, stops the device
    and ends by raising that error, however long it is observed. *)
Theorem X7_negative_interval
    (cfg : configuration) (fuel : nat) (env : environment) (fs : gset string) :
  (forall i, fault env i = None) ->
  INTERVAL_SECONDS cfg < 0 ->
  let dt := session_start cfg env in
  let d := session_directory cfg dt in
  exists w,
    run cfg (S fuel) env fs = (Raise (Exception "ValueError"), w) /\
    history w = setup_script cfg dt
                ++ Print STARTING
                   :: take 3 (turn cfg d (clock env (S (length (setup_script cfg dt)))))
                ++ [Stop; Print STOPPED].
Proof.
  intros Hquiet Hneg dt d.
  destruct (setup_completes cfg env fs) as [w1 Hsetup];
    [intros i _; apply Hquiet |].
  fold dt d in Hsetup.
  destruct (setup_outcome cfg env fs) as (r1 & w1' & Hs & Hr1).
  rewrite Hsetup in Hs. injection Hs as <- <-. destruct Hr1 as [_ Hh]. fold dt in Hh.
  assert (Hlen : length (log w1) = length (setup_script cfg dt)).
  { rewrite <- Hh. unfold history. now rewrite length_rev. }
  eexists. split.
  - unfold run, main, bind. rewrite Hsetup.
    unfold capture_session, try_finally, try_except_KeyboardInterrupt, print.
    rewrite run_call_bind, Hquiet.
    rewrite (capture_loop_negative cfg d env Hquiet fuel _ Hneg).
    unfold stop. rewrite run_call_bind, Hquiet.
    unfold call. rewrite Hquiet. reflexivity.
  - unfold history. cbn [log dirs length take turn rev app].
    rewrite <- !app_assoc. cbn [app].
    fold (history w1). rewrite Hh, Hlen. reflexivity.
Qed.

Lemma X7_witness :
  exists w,
    run shipped_negative_interval 4 quiet ∅ = (Raise (Exception "ValueError"), w) /\
    history w = setup_script shipped_negative_interval t_101500
                ++ Print STARTING
                   :: take 3 (turn shipped_negative_interval
                                (session_directory shipped_negative_interval t_101500)
                                t_101500_later)
                ++ [Stop; Print STOPPED].
Proof.
  apply (X7_negative_interval shipped_negative_interval 3 quiet ∅).
  - reflexivity.
  - simpl. lia.
Defined.

(** ** The settings a run consults *)

Section Settings.

Lemma capture_loop_settings (cfg cfg' : configuration) (d : string) (fuel : nat) :
  INTERVAL_SECONDS cfg' = INTERVAL_SECONDS cfg ->
  capture_loop fuel cfg' d = capture_loop fuel cfg d.
Proof.
  intros Hi. induction fuel as [|fuel IH]; [reflexivity |].
  cbn [capture_loop]. now rewrite IH, Hi.
Qed.

Lemma main_settings (cfg cfg' : configuration) (fuel : nat)
    (env : environment) (w : world) :
  setup cfg' = setup cfg ->
  INTERVAL_SECONDS cfg' = INTERVAL_SECONDS cfg ->
  main cfg' fuel env w = main cfg fuel env w.
Proof.
  intros Hs Hi. unfold main, bind. rewrite Hs.
  destruct (setup cfg env w) as [[d|x|] w1]; [| reflexivity ..].
  unfold capture_session. now rewrite (capture_loop_settings cfg cfg' d fuel Hi).
Qed.

(** What [set_controls] received in a run: nothing, or the resolved control
    set of the manual branch. *)
Lemma run_controls (cfg : configuration) (fuel : nat) (env : environment)
    (fs : gset string) :
  let h := history (snd (run cfg fuel env fs)) in
  controls_applied h = []
  \/ (FULLY_AUTO_MODE cfg = false
      /\ controls_applied h = [resolved_controls (MANUAL_SETTINGS cfg)]).
Proof.
  cbv zeta. destruct (run cfg fuel env fs) as [r w] eqn:Hrun. cbn [snd].
  pose proof (setup_script_controls cfg (session_start cfg env)) as Hc.
  apply run_shape in Hrun.
  destruct Hrun as [(x & w1 & _ & _ & [rest Hpre])
                   | (w1 & body & finale & _ & Hh & [Hbody _] & Hr)].
  - rewrite Hpre, controls_applied_app in Hc.
    destruct (controls_applied (history w)) as [|c l]; [now left |].
    destruct (FULLY_AUTO_MODE cfg); [discriminate |].
    right. split; [reflexivity |].
    injection Hc as -> Hc. now apply app_eq_nil in Hc as [-> _].
  - assert (Happlied : controls_applied (history w)
                       = controls_applied (setup_script cfg (session_start cfg env))).
    { rewrite Hh, controls_applied_app.
      change (Print STARTING :: body ++ finale)
        with ([Print STARTING] ++ body ++ finale).
      rewrite !controls_applied_app, (loop_events_controls body Hbody).
      cbn [controls_applied app].
      destruct r; [| | subst finale; now rewrite app_nil_r];
        destruct (finale_plain finale Hr) as (_ & _ & -> & _);
        now rewrite app_nil_r. }
    rewrite Happlied, Hc. destruct (FULLY_AUTO_MODE cfg); [now left | now right].
Qed.

Lemma resolved_keys (s : manual_settings) (k : string) :
  is_Some (resolved_controls s !! k) -> In k CONTROL_KEYS.
Proof.
  unfold resolved_controls, white_balance_controls, exposure_controls,
    quality_controls, CONTROL_KEYS.
  destruct (exposure_time s);
    destruct (awb_of_string (Str.lower (white_balance s))) as [[]|];
    intros H;
    repeat (rewrite lookup_insert in H; case_decide;
            [subst k; simpl; tauto |]);
    rewrite lookup_empty in H; destruct H; discriminate.
Qed.

(** The requests for a configuration in a run of the manual branch. *)
Lemma manual_requests (cfg : configuration) (fuel : nat) (env : environment)
    (fs : gset string) (m : dict) :
  FULLY_AUTO_MODE cfg = false ->
  In (CreateStillConfiguration m) (history (snd (run cfg fuel env fs))) ->
  m = {[ "size" := VSize (resolution (MANUAL_SETTINGS cfg)) ]}.
Proof.
  intros Hman. destruct (run cfg fuel env fs) as [r w] eqn:Hrun. cbn [snd].
  assert (Hscript : In (CreateStillConfiguration m)
                      (setup_script cfg (session_start cfg env)) ->
                    m = {[ "size" := VSize (resolution (MANUAL_SETTINGS cfg)) ]}).
  { unfold setup_script, configure_script, manual_script, manual_prelude,
      exposure_lines, summary_lines, launch_script. rewrite Hman.
    destruct (exposure_time (MANUAL_SETTINGS cfg)); simpl; intros H;
      repeat (destruct H as [H | H]; [try discriminate; congruence |]);
      contradiction. }
  apply run_shape in Hrun.
  destruct Hrun as [(x & w1 & _ & _ & [rest Hpre])
                   | (w1 & body & finale & _ & Hh & [Hbody _] & Hr)]; intros Hin.
  - apply Hscript. rewrite Hpre. apply in_or_app. now left.
  - rewrite Hh in Hin. apply in_app_or in Hin as [Hin | Hin]; [now apply Hscript |].
    destruct Hin as [Hin | Hin]; [discriminate |].
    apply in_app_or in Hin as [Hin | Hin].
    + now apply (loop_events_in body _ Hbody) in Hin.
    + assert (Hfin : CreateStillConfiguration m = Stop
                     \/ CreateStillConfiguration m = Print STOPPING
                     \/ CreateStillConfiguration m = Print STOPPED).
      { destruct r; [| | subst finale; contradiction];
          now apply (finale_plain finale Hr). }
      destruct Hfin as [? | [? | ?]]; discriminate.
Qed.

End Settings.

(** X8: the settings of the mode that is switched off are never consulted.
    With [FULLY_AUTO_MODE] on, replacing [MANUAL_SETTINGS] by any other
    record changes nothing in any run (the same calls, the same outcome);
    with it off, the same holds of [AUTO_SETTINGS]. *)
Theorem X8_settings_of_the_other_mode_are_ignored
    (cfg : configuration) (m : manual_settings) (a : auto_settings)
    (fuel : nat) (env : environment) (fs : gset string) :
  run (if FULLY_AUTO_MODE cfg then with_manual_settings cfg m
       else with_auto_settings cfg a) fuel env fs
  = run cfg fuel env fs.
Proof.
  unfold run. destruct (FULLY_AUTO_MODE cfg) eqn:Hmode;
    apply main_settings; try reflexivity;
    unfold setup; cbn [FULLY_AUTO_MODE OUTPUT_BASE_PATH with_manual_settings
                         with_auto_settings];
    rewrite Hmode; reflexivity.
Qed.

(** X9: the manual branch validates nothing.  Whatever integers the
    settings hold, in range or not, every control set handed to the driver
    has brightness, contrast, saturation and sharpness exactly as configured,
    every configuration request carries the configured resolution and
    nothing else, and when the environment raises nothing the control set
    is handed over: no value makes the script raise. *)
Theorem X9_manual_values_pass_unchecked
    (cfg : configuration) (fuel : nat) (env : environment) (fs : gset string) :
  FULLY_AUTO_MODE cfg = false ->
  let s := MANUAL_SETTINGS cfg in
  let h := history (snd (run cfg fuel env fs)) in
  (forall c, In c (controls_applied h) ->
     c !! "Brightness" = Some (VInt (brightness s)) /\
     c !! "Contrast" = Some (VInt (contrast s)) /\
     c !! "Saturation" = Some (VInt (saturation s)) /\
     c !! "Sharpness" = Some (VInt (sharpness s))) /\
  (forall m, In (CreateStillConfiguration m) h ->
     m = {[ "size" := VSize (resolution s) ]}) /\
  ((forall i, fault env i = None) -> exists c, controls_applied h = [c]).
Proof.
  intros Hman s h. split; [| split].
  - intros c Hc. destruct (run_controls cfg fuel env fs) as [E | [_ E]];
      fold h in E; rewrite E in Hc; [contradiction |].
    destruct Hc as [<- | []]. apply resolved_quality.
  - intros m. now apply manual_requests.
  - intros Hquiet. subst h.
    destruct (run cfg fuel env fs) as [r w] eqn:Hrun. cbn [snd].
    destruct (manual_controls cfg env fs Hman fuel r w Hrun) as (_ & Hstart & _).
    eexists. apply Hstart.
    destruct (setup_completes cfg env fs) as [w1 Hsetup];
      [intros i _; apply Hquiet |].
    apply run_shape in Hrun.
    destruct Hrun as [(x & w2 & _ & Hfail & _) | (w2 & body & finale & _ & Hh & _)].
    + rewrite Hsetup in Hfail. discriminate.
    + rewrite Hh. apply in_or_app. left. apply setup_script_has_start.
Qed.

Lemma X9_witness :
  let h := history (snd (run out_of_range_manual 1 quiet ∅)) in
  (forall c, In c (controls_applied h) ->
     c !! "Brightness" = Some (VInt 1000) /\
     c !! "Contrast" = Some (VInt (-500)) /\
     c !! "Saturation" = Some (VInt 101) /\
     c !! "Sharpness" = Some (VInt (-101))) /\
  (forall m, In (CreateStillConfiguration m) h ->
     m = {[ "size" := VSize (0, -1) ]}) /\
  ((forall i, fault quiet i = None) -> exists c, controls_applied h = [c]).
Proof.
  apply (X9_manual_values_pass_unchecked out_of_range_manual 1 quiet ∅).
  reflexivity.
Defined.

(** X10: the control set holds no key of its own making.  In every run,
    a key of a control set handed to the driver is one of [Brightness],
    [Contrast], [Saturation], [Sharpness], [AeEnable], [ExposureTime],
    [AnalogueGain], [AwbEnable] and [AwbMode]. *)
Theorem X10_control_set_keys
    (cfg : configuration) (fuel : nat) (env : environment) (fs : gset string)
    (c : dict) (k : string) :
  In c (controls_applied (history (snd (run cfg fuel env fs)))) ->
  is_Some (c !! k) ->
  In k CONTROL_KEYS.
Proof.
  intros Hc Hk. destruct (run_controls cfg fuel env fs) as [E | [_ E]];
    cbv zeta in E; rewrite E in Hc; [contradiction |].
  destruct Hc as [<- | []]. now apply resolved_keys in Hk.
Qed.

Lemma X10_witness :
  In "AwbMode"%string CONTROL_KEYS.
Proof.
  apply (X10_control_set_keys out_of_range_manual 1 quiet ∅
           (resolved_controls (MANUAL_SETTINGS out_of_range_manual)) "AwbMode").
  - destruct (run_controls out_of_range_manual 1 quiet ∅) as [E | [_ E]];
      cbv zeta in E.
    + apply (f_equal (@length dict)) in E. vm_compute in E. discriminate.
    + rewrite E. left. reflexivity.
  - assert (E : resolved_controls (MANUAL_SETTINGS out_of_range_manual)
                  !! "AwbMode"%string
                = Some (VAwbMode Cloudy)) by (vm_compute; reflexivity).
    rewrite E. eauto.
Defined.

(** ** The order of the names *)

Section Order.

Local Open Scope string_scope.
Local Open Scope Z_scope.
Local Arguments String.append !_ _ / : simpl nomatch.

Lemma ascii_compare_refl (c : ascii) : Ascii.compare c c = Eq.
Proof. unfold Ascii.compare. apply N.compare_refl. Qed.

Lemma string_compare_refl (s : string) : String.compare s s = Eq.
Proof. induction s as [|c s IH]; [reflexivity |]. simpl. now rewrite ascii_compare_refl. Qed.

Lemma compare_append (a a' b b' : string) :
  String.length a = String.length a' ->
  String.compare (a ++ b) (a' ++ b')
  = then_compare (String.compare a a') (String.compare b b').
Proof.
  revert a'. induction a as [|c a IH]; intros [|c' a'] Hlen; simpl in *;
    try discriminate; [reflexivity |].
  destruct (Ascii.compare c c'); [| reflexivity ..].
  apply IH. now injection Hlen.
Qed.

Lemma compare_by (a b : Z) (c : comparison) :
  match c with
  | Eq => a = b
  | Lt => a < b
  | Gt => b < a
  end ->
  (a ?= b) = c.
Proof.
  destruct c; intros H;
    [apply Z.compare_eq_iff | apply Z.compare_lt_iff | apply Z.compare_gt_iff];
    exact H.
Qed.

Lemma ascii_compare_value (c c' : ascii) :
  Ascii.compare c c'
  = (Z.of_nat (nat_of_ascii c) - 48 ?= Z.of_nat (nat_of_ascii c') - 48).
Proof.
  unfold Ascii.compare, nat_of_ascii. rewrite !N_nat_Z.
  rewrite <- (N2Z.inj_compare (N_of_ascii c) (N_of_ascii c')).
  symmetry. apply compare_by.
  destruct (Z.compare_spec (Z.of_N (N_of_ascii c)) (Z.of_N (N_of_ascii c')));
    lia.
Qed.

(** One more digit: the order is that of the digits read so far, then that
    of the new digits. *)
Lemma compare_next_digit (acc acc' d d' : Z) :
  0 <= d <= 9 -> 0 <= d' <= 9 ->
  (acc * 10 + d ?= acc' * 10 + d') = then_compare (acc ?= acc') (d ?= d').
Proof.
  intros Hd Hd'. apply compare_by. unfold then_compare.
  destruct (Z.compare_spec acc acc') as [Ha | Ha | Ha];
    [destruct (Z.compare_spec d d') as [He | He | He] | |]; lia.
Qed.

Lemma then_compare_assoc (a b c : comparison) :
  then_compare (then_compare a b) c = then_compare a (then_compare b c).
Proof. now destruct a. Qed.

(** Numerals of the same width sort as the numbers they denote. *)
Lemma digits_compare (w : nat) (s t : string) (acc acc' : Z) :
  matches (Str.repeat_char "Y" w) s = true ->
  matches (Str.repeat_char "Y" w) t = true ->
  (parse_from acc s ?= parse_from acc' t)
  = then_compare (acc ?= acc') (String.compare s t).
Proof.
  revert s t acc acc'.
  induction w as [|w IH]; intros [|c s] [|c' t] acc acc' Hs Ht;
    simpl in Hs, Ht; try discriminate.
  - simpl. now destruct (acc ?= acc').
  - apply andb_prop in Hs as [Hc Hs]. apply andb_prop in Ht as [Hc' Ht].
    cbn [parse_from]. rewrite (IH s t _ _ Hs Ht).
    rewrite compare_next_digit by now apply digit_value.
    rewrite then_compare_assoc, <- ascii_compare_value.
    f_equal. cbn [String.compare]. unfold then_compare.
    now destruct (Ascii.compare c c').
Qed.

Lemma pad2_compare (x y : Z) :
  0 <= x < 100 -> 0 <= y < 100 ->
  String.compare (Str.zero_pad 2 x) (Str.zero_pad 2 y) = (x ?= y).
Proof.
  intros Hx Hy.
  destruct (pad2 x Hx) as [Hmx Hpx]. destruct (pad2 y Hy) as [Hmy Hpy].
  rewrite <- Hpx, <- Hpy at 2.
  rewrite (digits_compare 2 _ _ 0 0); [reflexivity | |].
  - apply (Hmx "Y"%char). simpl. tauto.
  - apply (Hmy "Y"%char). simpl. tauto.
Qed.

Lemma pad4_compare (x y : Z) :
  0 <= x < 10000 -> 0 <= y < 10000 ->
  String.compare (Str.zero_pad 4 x) (Str.zero_pad 4 y) = (x ?= y).
Proof.
  intros Hx Hy.
  destruct (pad4 x Hx) as [Hmx Hpx]. destruct (pad4 y Hy) as [Hmy Hpy].
  rewrite <- Hpx, <- Hpy at 2.
  rewrite (digits_compare 4 _ _ 0 0); [reflexivity | |].
  - apply (Hmx "Y"%char). simpl. tauto.
  - apply (Hmy "Y"%char). simpl. tauto.
Qed.

Lemma directory_name_compare (a b : datetime) :
  1000 <= year a -> 1000 <= year b ->
  String.compare (directory_name a) (directory_name b) = compare_to_the_second a b.
Proof.
  intros Ha Hb. rewrite !directory_name_eq.
  destruct (datetime_ranges a) as (Hy & Hmo & Hd & Hh & Hmi & Hs & _).
  destruct (datetime_ranges b) as (Hy' & Hmo' & Hd' & Hh' & Hmi' & Hs' & _).
  rewrite !decimal_year by lia.
  unfold compare_to_the_second.
  rewrite compare_append by (rewrite !pad4_length; auto).
  rewrite pad4_compare by assumption. f_equal.
  rewrite compare_append by (rewrite !pad2_length; auto).
  rewrite pad2_compare by assumption. f_equal.
  rewrite compare_append by (rewrite !pad2_length; auto).
  rewrite pad2_compare by assumption. f_equal.
  rewrite (compare_append "_" "_") by reflexivity. simpl then_compare.
  rewrite compare_append by (rewrite !pad2_length; auto).
  rewrite pad2_compare by assumption. f_equal.
  rewrite compare_append by (rewrite !pad2_length; auto).
  rewrite pad2_compare by assumption. f_equal.
  now apply pad2_compare.
Qed.

Lemma image_name_compare (a b : datetime) :
  1000 <= year a -> 1000 <= year b ->
  String.compare (image_name a) (image_name b) = compare_to_the_second a b.
Proof.
  intros Ha Hb. rewrite !image_name_eq.
  rewrite (compare_append "image_" "image_") by reflexivity. simpl then_compare.
  rewrite compare_append
    by (rewrite (matches_length _ _ (directory_name_layout a Ha)),
          (matches_length _ _ (directory_name_layout b Hb)); reflexivity).
  rewrite directory_name_compare by assumption.
  now destruct (compare_to_the_second a b).
Qed.

End Order.

Section Calendar.

Lemma days_before_year_step (y : Z) :
  days_before_year (y + 1) = days_before_year y + (if is_leap y then 366 else 365).
Proof.
  unfold days_before_year, is_leap. cbv zeta.
  replace (y + 1 - 1) with y by lia.
  destruct (y mod 4 =? 0) eqn:H4; destruct (y mod 100 =? 0) eqn:H100;
    destruct (y mod 400 =? 0) eqn:H400; simpl;
    Z.div_mod_to_equations; lia.
Qed.

Lemma days_before_year_mono (y y' : Z) :
  y <= y' -> days_before_year y <= days_before_year y'.
Proof.
  unfold days_before_year. cbv zeta. intros H. Z.div_mod_to_equations. lia.
Qed.

Lemma datetime_date (dt : datetime) :
  1 <= month dt <= 12 /\ 1 <= day dt <= days_in_month (year dt) (month dt).
Proof.
  destruct dt as [y mo d h mi s us ok]; simpl.
  unfold valid_fields in ok. repeat (apply andb_prop in ok as [ok ?]). lia.
Qed.

Lemma datetime_time (dt : datetime) :
  0 <= hour dt < 24 /\ 0 <= minute dt < 60 /\ 0 <= second dt < 60 /\
  0 <= microsecond dt < 1000000.
Proof.
  destruct dt as [y mo d h mi s us ok]; simpl.
  unfold valid_fields in ok. repeat (apply andb_prop in ok as [ok ?]). lia.
Qed.

Ltac month_cases m H :=
  assert (m = 1 \/ m = 2 \/ m = 3 \/ m = 4 \/ m = 5 \/ m = 6 \/ m = 7 \/ m = 8
          \/ m = 9 \/ m = 10 \/ m = 11 \/ m = 12) as H by lia;
  repeat (destruct H as [H | H]).

Lemma days_in_month_cases (y : Z) :
  let feb := if is_leap y then 29 else 28 in
  days_in_month y 1 = 31 /\ days_in_month y 2 = feb /\ days_in_month y 3 = 31 /\
  days_in_month y 4 = 30 /\ days_in_month y 5 = 31 /\ days_in_month y 6 = 30 /\
  days_in_month y 7 = 31 /\ days_in_month y 8 = 31 /\ days_in_month y 9 = 30 /\
  days_in_month y 10 = 31 /\ days_in_month y 11 = 30 /\ days_in_month y 12 = 31.
Proof. cbv -[is_leap]. destruct (is_leap y); repeat split. Qed.

Lemma days_before_month_cases (y : Z) :
  let leap := if is_leap y then 1 else 0 in
  days_before_month y 1 = 0 /\ days_before_month y 2 = 31 /\
  days_before_month y 3 = 59 + leap /\ days_before_month y 4 = 90 + leap /\
  days_before_month y 5 = 120 + leap /\ days_before_month y 6 = 151 + leap /\
  days_before_month y 7 = 181 + leap /\ days_before_month y 8 = 212 + leap /\
  days_before_month y 9 = 243 + leap /\ days_before_month y 10 = 273 + leap /\
  days_before_month y 11 = 304 + leap /\ days_before_month y 12 = 334 + leap.
Proof. cbv -[is_leap]. destruct (is_leap y); repeat split. Qed.

Lemma day_of_year_bounds (dt : datetime) :
  1 <= day_of_year dt <= (if is_leap (year dt) then 366 else 365).
Proof.
  destruct (datetime_date dt) as [Hm Hd]. unfold day_of_year.
  pose proof (days_in_month_cases (year dt)) as Hin.
  pose proof (days_before_month_cases (year dt)) as Hbefore.
  cbv zeta in Hin, Hbefore.
  month_cases (month dt) Hc; rewrite Hc in *;
    destruct (is_leap (year dt)); lia.
Qed.

Lemma day_of_year_mono (a b : datetime) :
  year a = year b ->
  month a < month b \/ (month a = month b /\ day a < day b) ->
  day_of_year a < day_of_year b.
Proof.
  intros Hy Hlt.
  destruct (datetime_date a) as [Hm Hd]. destruct (datetime_date b) as [Hm' Hd'].
  unfold day_of_year. rewrite Hy in *.
  pose proof (days_in_month_cases (year b)) as Hin.
  pose proof (days_before_month_cases (year b)) as Hbefore.
  cbv zeta in Hin, Hbefore.
  month_cases (month a) Hc; rewrite Hc in *;
    month_cases (month b) Hc'; rewrite Hc' in *; try lia;
    destruct (is_leap (year b)); lia.
Qed.

Lemma toordinal_mono (a b : datetime) :
  year a < year b
  \/ (year a = year b
      /\ (month a < month b \/ (month a = month b /\ day a < day b))) ->
  toordinal a < toordinal b.
Proof.
  intros [Hy | [Hy Hmd]].
  - pose proof (day_of_year_bounds a) as Ha. pose proof (day_of_year_bounds b) as Hb.
    pose proof (days_before_year_step (year a)) as Hstep.
    pose proof (days_before_year_mono (year a + 1) (year b) ltac:(lia)) as Hmono.
    unfold toordinal. unfold day_of_year in *.
    destruct (is_leap (year a)); destruct (is_leap (year b)); lia.
  - pose proof (day_of_year_mono a b Hy Hmd) as H.
    unfold toordinal, day_of_year in *. rewrite Hy in *. lia.
Qed.

Lemma whole_seconds (dt : datetime) :
  micros dt / 1000000
  = ((toordinal dt * 24 + hour dt) * 60 + minute dt) * 60 + second dt.
Proof.
  pose proof (datetime_time dt) as R. unfold micros.
  symmetry. apply (Z.div_unique _ _ _ (microsecond dt)); lia.
Qed.

Lemma earlier_to_the_second (a b : datetime) :
  compare_to_the_second a b = Lt -> micros a / 1000000 < micros b / 1000000.
Proof.
  unfold compare_to_the_second, then_compare. intros H.
  pose proof (datetime_time a) as Ra. pose proof (datetime_time b) as Rb.
  assert (Hcases :
    toordinal a < toordinal b
    \/ (toordinal a = toordinal b
        /\ (hour a < hour b
            \/ (hour a = hour b
                /\ (minute a < minute b
                    \/ (minute a = minute b /\ second a < second b)))))).
  { destruct (Z.compare_spec (year a) (year b)) as [Hy | Hy | Hy]; try discriminate;
      [| left; apply toordinal_mono; lia].
    destruct (Z.compare_spec (month a) (month b)) as [Hmo | Hmo | Hmo];
      try discriminate; [| left; apply toordinal_mono; lia].
    destruct (Z.compare_spec (day a) (day b)) as [Hd | Hd | Hd];
      try discriminate; [| left; apply toordinal_mono; lia].
    right. split; [unfold toordinal; congruence |].
    destruct (Z.compare_spec (hour a) (hour b)) as [Hh | Hh | Hh];
      try discriminate; [| lia].
    destruct (Z.compare_spec (minute a) (minute b)) as [Hmi | Hmi | Hmi];
      try discriminate; [| lia].
    apply -> Z.compare_lt_iff in H. lia. }
  rewrite !whole_seconds. lia.
Qed.

Lemma same_to_the_second (a b : datetime) :
  compare_to_the_second a b = Eq -> micros a / 1000000 = micros b / 1000000.
Proof.
  unfold compare_to_the_second, then_compare. intros H.
  destruct (Z.compare_spec (year a) (year b)) as [Hy | Hy | Hy]; try discriminate.
  destruct (Z.compare_spec (month a) (month b)) as [Hmo | Hmo | Hmo];
    try discriminate.
  destruct (Z.compare_spec (day a) (day b)) as [Hd | Hd | Hd]; try discriminate.
  destruct (Z.compare_spec (hour a) (hour b)) as [Hh | Hh | Hh]; try discriminate.
  destruct (Z.compare_spec (minute a) (minute b)) as [Hmi | Hmi | Hmi];
    try discriminate.
  apply Z.compare_eq in H.
  rewrite !whole_seconds. unfold toordinal. congruence.
Qed.

Lemma compare_to_the_second_antisym (a b : datetime) :
  compare_to_the_second b a = CompOpp (compare_to_the_second a b).
Proof.
  unfold compare_to_the_second, then_compare.
  rewrite (Z.compare_antisym (year a) (year b)),
    (Z.compare_antisym (month a) (month b)), (Z.compare_antisym (day a) (day b)),
    (Z.compare_antisym (hour a) (hour b)),
    (Z.compare_antisym (minute a) (minute b)),
    (Z.compare_antisym (second a) (second b)).
  destruct (year a ?= year b), (month a ?= month b), (day a ?= day b),
    (hour a ?= hour b), (minute a ?= minute b), (second a ?= second b);
    reflexivity.
Qed.

Lemma compare_to_the_second_seconds (a b : datetime) :
  compare_to_the_second a b = (micros a / 1000000 ?= micros b / 1000000).
Proof.
  destruct (compare_to_the_second a b) eqn:E; symmetry.
  - apply Z.compare_eq_iff, same_to_the_second, E.
  - apply Z.compare_lt_iff, earlier_to_the_second, E.
  - apply Z.compare_gt_iff, earlier_to_the_second.
    rewrite compare_to_the_second_antisym, E. reflexivity.
Qed.

End Calendar.

(** X11: from the year 1000 on the names sort in time order.  For two
    readings of the clock in years of four digits, comparing the names of
    the two session directories, or of the two image files, as strings gives
    the order of the readings counted in whole seconds: the earlier second
    has the smaller name, and the names are equal exactly when the readings
    lie in the same second.  (A year before 1000 is printed with fewer
    digits, and its names sort after those of later years.) *)
Theorem X11_names_sort_in_time_order (a b : datetime) :
  1000 <= year a ->
  1000 <= year b ->
  String.compare (directory_name a) (directory_name b)
  = (micros a / 1000000 ?= micros b / 1000000)
  /\ String.compare (image_name a) (image_name b)
     = (micros a / 1000000 ?= micros b / 1000000).
Proof.
  intros Ha Hb.
  rewrite directory_name_compare, image_name_compare,
    compare_to_the_second_seconds by assumption.
  split; reflexivity.
Qed.

Lemma X11_witness :
  String.compare (directory_name t_101500) (directory_name t_101510)
  = (micros t_101500 / 1000000 ?= micros t_101510 / 1000000)
  /\ String.compare (image_name t_101500) (image_name t_101510)
     = (micros t_101500 / 1000000 ?= micros t_101510 / 1000000).
Proof.
  apply (X11_names_sort_in_time_order t_101500 t_101510);
    vm_compute; discriminate.
Defined.
